(** * CareGrid listings manager: a shallow embedding of the listings pipeline

    The development follows [scripts/python/caregrid_listings_manager.py]:
    the Python string primitives the pipeline relies on, [urlparse]'s host
    extraction with the [ipaddress] parsers behind its check of bracketed
    hosts, [difflib.SequenceMatcher.ratio], the record schema built by
    [clean_record], and then the stages [check_required_fields],
    [deduplicate_records], [enrich_with_geodata],
    [check_website_availability], [generate_seo_content], [load_csv] and
    [process_records].

    Strings are Python [str] values over the ASCII alphabet: a character is
    an [ascii] code, codes from 128 upwards stand for uncased, non-blank,
    non-digit symbols.  Dictionaries read from the CSV file are finite maps
    from column names to strings.  Exceptions are values of [exn] carried by
    the [result] type. *)

From stdpp Require Import gmap strings list fin_maps pretty sorting.
From Stdlib Require Import ZArith Ascii Lia.
From Stdlib Require QArith Qcanon.

Local Open Scope Z_scope.
Local Open Scope nat_scope.
Local Set Warnings "-clear-no-such-hyp".

(** ** Python string primitives *)

Module PyStr.

Definition code (c : ascii) : nat := nat_of_ascii c.

Definition is_upper_char (c : ascii) : bool :=
  (65 <=? code c) && (code c <=? 90).

Definition is_lower_char (c : ascii) : bool :=
  (97 <=? code c) && (code c <=? 122).

Definition is_cased (c : ascii) : bool := is_upper_char c || is_lower_char c.

Definition is_digit (c : ascii) : bool :=
  (48 <=? code c) && (code c <=? 57).

(** [str.isspace] on the ASCII range: TAB, LF, VT, FF, CR, FS, GS, RS, US
    and the blank. *)
Definition is_space (c : ascii) : bool :=
  ((9 <=? code c) && (code c <=? 13))
  || ((28 <=? code c) && (code c <=? 31))
  || (code c =? 32).

Definition lower_char (c : ascii) : ascii :=
  if is_upper_char c then ascii_of_nat (code c + 32) else c.

Definition upper_char (c : ascii) : ascii :=
  if is_lower_char c then ascii_of_nat (code c - 32) else c.

Fixpoint map_chars (f : ascii → ascii) (s : string) : string :=
  match s with
  | EmptyString => EmptyString
  | String c s' => String (f c) (map_chars f s')
  end.

(** [s.lower()] and [s.upper()] *)
Definition lower (s : string) : string := map_chars lower_char s.
Definition upper (s : string) : string := map_chars upper_char s.

(** [s.title()]: a cased character is upper-cased when the character before
    it is not cased, and lower-cased otherwise. *)
Fixpoint title_from (previous_is_cased : bool) (s : string) : string :=
  match s with
  | EmptyString => EmptyString
  | String c s' =>
      String (if previous_is_cased then lower_char c else upper_char c)
             (title_from (is_cased c) s')
  end.

Definition title (s : string) : string := title_from false s.

Fixpoint any_char (p : ascii → bool) (s : string) : bool :=
  match s with
  | EmptyString => false
  | String c s' => p c || any_char p s'
  end.

(** [s.isupper()]: no lower-case character and at least one cased one *)
Definition isupper (s : string) : bool :=
  negb (any_char is_lower_char s) && any_char is_upper_char s.

Fixpoint lstrip_with (p : ascii → bool) (s : string) : string :=
  match s with
  | EmptyString => EmptyString
  | String c s' => if p c then lstrip_with p s' else s
  end.

Fixpoint rstrip_with (p : ascii → bool) (s : string) : string :=
  match s with
  | EmptyString => EmptyString
  | String c s' =>
      match rstrip_with p s' with
      | EmptyString => if p c then EmptyString else String c EmptyString
      | t => String c t
      end
  end.

(** [s.strip()] *)
Definition strip (s : string) : string :=
  rstrip_with is_space (lstrip_with is_space s).

(** [s.startswith(p)] *)
Definition startswith (p s : string) : bool := String.prefix p s.

(** [sub in s] *)
Fixpoint contains (sub s : string) : bool :=
  String.prefix sub s
  || match s with
     | EmptyString => false
     | String _ s' => contains sub s'
     end.

(** [c in s] for a single character *)
Definition has_char (c : ascii) (s : string) : bool :=
  any_char (λ d, bool_decide (d = c)) s.

Fixpoint filter_chars (p : ascii → bool) (s : string) : string :=
  match s with
  | EmptyString => EmptyString
  | String c s' =>
      if p c then String c (filter_chars p s') else filter_chars p s'
  end.

(** [re.sub(r'\D', '', s)] *)
Definition digits_only (s : string) : string := filter_chars is_digit s.

(** [re.split(pattern, s)] for a pattern that is one character class:
    every matching character ends a piece, empty pieces are kept. *)
Fixpoint split_on (p : ascii → bool) (s : string) : list string :=
  match s with
  | EmptyString => [EmptyString]
  | String c s' =>
      if p c then EmptyString :: split_on p s'
      else match split_on p s' with
           | [] => [String c EmptyString]
           | piece :: pieces => String c piece :: pieces
           end
  end.

(** [sep.join(l)] *)
Fixpoint join (sep : string) (l : list string) : string :=
  match l with
  | [] => EmptyString
  | [x] => x
  | x :: rest => x +:+ sep +:+ join sep rest
  end.

Fixpoint take (n : nat) (s : string) : string :=
  match n, s with
  | S n', String c s' => String c (take n' s')
  | _, _ => EmptyString
  end.

Fixpoint drop (n : nat) (s : string) : string :=
  match n, s with
  | S n', String _ s' => drop n' s'
  | _, _ => s
  end.

(** [s[:k]] for a Python integer [k]: a negative bound counts from the
    end of the string, and is clamped at the start. *)
Definition slice_to (s : string) (k : Z) : string :=
  if (k <? 0)%Z
  then take (Z.to_nat (Z.of_nat (String.length s) + k)) s
  else take (Z.to_nat k) s.

(** Truth value of a string: non-empty *)
Definition truthy (s : string) : bool :=
  match s with EmptyString => false | _ => true end.

(** [s.partition(c)] for a single character: the text before the first
    [c], whether [c] occurs, and the text after it *)
Fixpoint partition (c : ascii) (s : string) : string * bool * string :=
  match s with
  | EmptyString => (EmptyString, false, EmptyString)
  | String d s' =>
      if bool_decide (d = c) then (EmptyString, true, s')
      else let '(before, found, after) := partition c s' in
           (String d before, found, after)
  end.

(** [s.rpartition(c)[2]]: the text after the last [c], the whole of [s]
    when [c] does not occur *)
Fixpoint rpartition_tail (c : ascii) (s : string) : string :=
  match s with
  | EmptyString => EmptyString
  | String d s' =>
      if has_char c s' then rpartition_tail c s'
      else if bool_decide (d = c) then s' else s
  end.

End PyStr.

(** ** Exceptions *)

Inductive exn : Type :=
  | FileNotFoundError
  | PermissionError
  | UnicodeDecodeError
  | AttributeError
  | KeyError
  | ValueError
  | URLError
  | HTTPError (code : nat).

(** [IOError] is Python 3's alias of [OSError]; the file errors and the
    urllib errors derive from it. *)
Definition is_IOError (e : exn) : bool :=
  match e with
  | FileNotFoundError | PermissionError | URLError | HTTPError _ => true
  | UnicodeDecodeError | AttributeError | KeyError | ValueError => false
  end.

Inductive result (A : Type) : Type :=
  | Ok (a : A)
  | Raise (e : exn).
Arguments Ok {A} a.
Arguments Raise {A} e.

#[global] Instance result_ret : MRet result := λ A a, Ok a.

#[global] Instance result_bind : MBind result := λ A B k m,
  match m with
  | Ok a => k a
  | Raise e => Raise e
  end.

Definition raises {A} (m : result A) : bool :=
  match m with Ok _ => false | Raise _ => true end.

#[global] Instance exn_eq_dec : EqDecision exn.
Proof. solve_decision. Defined.

#[global] Instance result_eq_dec {A} `{EqDecision A} : EqDecision (result A).
Proof. solve_decision. Defined.

(** ** [ipaddress.ip_address]

    [urlsplit] hands a bracketed host to [ipaddress.ip_address].  The
    parsers follow [IPv4Address] and [IPv6Address] on a string argument.
    On a string they raise [AddressValueError] only, which [ip_address]
    catches: here [None] stands for that exception (in [parse_octet] and
    [parse_hextet], for the [ValueError] that their caller turns into it).
    Every index into [parts] is within the list. *)

Module Ipaddress.

(** Membership of [_HEX_DIGITS] *)
Definition is_hex_digit (c : ascii) : bool :=
  PyStr.is_digit c
  || ((97 <=? PyStr.code c) && (PyStr.code c <=? 102))
  || ((65 <=? PyStr.code c) && (PyStr.code c <=? 70)).

Definition digit_value (c : ascii) : Z :=
  if PyStr.is_digit c then Z.of_nat (PyStr.code c) - 48
  else if PyStr.is_lower_char c then Z.of_nat (PyStr.code c) - 87
  else Z.of_nat (PyStr.code c) - 55.

(** [int(s, base)] for a non-empty string of digits of that base *)
Fixpoint int_from (base acc : Z) (s : string) : Z :=
  match s with
  | EmptyString => acc
  | String c s' => int_from base (acc * base + digit_value c) s'
  end.

Definition parse_octet (octet_str : string) : option Z :=
  if negb (PyStr.truthy octet_str) then None
  else if PyStr.any_char (λ c, negb (PyStr.is_digit c)) octet_str then None
  else if 3 <? String.length octet_str then None
  else if negb (String.eqb octet_str "0") && PyStr.startswith "0" octet_str
  then None
  else
    let octet_int := int_from 10 0 octet_str in
    if (255 <? octet_int)%Z then None else Some octet_int.

(** [_BaseV4._ip_int_from_string]; the octets are read big-endian *)
Definition v4_ip_int_from_string (ip_str : string) : option Z :=
  if negb (PyStr.truthy ip_str) then None
  else
    let octets := PyStr.split_on (λ c, bool_decide (c = "."%char)) ip_str in
    if negb (length octets =? 4) then None
    else
      foldl (λ acc octet_str,
               ip_int ← acc;
               octet_int ← parse_octet octet_str;
               Some (ip_int * 256 + octet_int)%Z)
            (Some 0%Z) octets.

Definition IPv4Address (address : string) : option Z :=
  if PyStr.has_char "/"%char address then None
  else v4_ip_int_from_string address.

Definition hex_char (d : Z) : ascii :=
  ascii_of_nat (Z.to_nat (if (d <? 10)%Z then 48 + d else 87 + d)).

Fixpoint format_x_digits (rounds : nat) (n : Z) (acc : string) : string :=
  match rounds with
  | 0 => acc
  | S rounds =>
      let acc := String (hex_char (n mod 16)) acc in
      if (n / 16 =? 0)%Z then acc else format_x_digits rounds (n / 16) acc
  end.

(** ['%x' % n] for a number below [2^16] *)
Definition format_x (n : Z) : string := format_x_digits 4 n EmptyString.

Definition split_scope_id (ip_str : string) : option (string * option string) :=
  let '(addr, sep, scope_id) := PyStr.partition "%"%char ip_str in
  if negb sep then Some (addr, None)
  else if negb (PyStr.truthy scope_id) || PyStr.has_char "%"%char scope_id
  then None
  else Some (addr, Some scope_id).

Definition parse_hextet (hextet_str : string) : option Z :=
  if PyStr.any_char (λ c, negb (is_hex_digit c)) hextet_str then None
  else if 4 <? String.length hextet_str then None
  else if negb (PyStr.truthy hextet_str) then None
  else Some (int_from 16 0 hextet_str).

(** The loop over [range(1, len(parts) - 1)] that looks for the empty part
    of a [::] *)
Definition find_skip_index (parts : list string) : option (option nat) :=
  foldl (λ acc i,
           skip_index ← acc;
           if negb (PyStr.truthy (parts !!! i)) then
             match skip_index with
             | Some _ => None
             | None => Some (Some i)
             end
           else Some skip_index)
        (Some None) (seq 1 (length parts - 2)).

(** [ip_int <<= 16; ip_int |= cls._parse_hextet(part)] over the parts at
    [indices] *)
Definition parse_hextets (parts : list string) (indices : list nat) (ip_int : Z)
    : option Z :=
  foldl (λ acc i,
           ip_int ← acc;
           hextet ← parse_hextet (parts !!! i);
           Some (Z.lor (Z.shiftl ip_int 16) hextet))
        (Some ip_int) indices.

(** [_BaseV6._ip_int_from_string] *)
Definition v6_ip_int_from_string (ip_str : string) : option Z :=
  if negb (PyStr.truthy ip_str) then None
  else
    let parts := PyStr.split_on (λ c, bool_decide (c = ":"%char)) ip_str in
    if length parts <? 3 then None
    else
      parts ←
        (let last_part := parts !!! (length parts - 1) in
         if PyStr.has_char "."%char last_part then
           ipv4_int ← IPv4Address last_part;
           Some (take (length parts - 1) parts
                   ++ [format_x (Z.land (Z.shiftr ipv4_int 16) 65535);
                       format_x (Z.land ipv4_int 65535)])
         else Some parts);
      if 9 <? length parts then None
      else
        skip_index ← find_skip_index parts;
        counts ←
          match skip_index with
          | Some skip_index =>
              let parts_hi := Z.of_nat skip_index in
              let parts_lo := (Z.of_nat (length parts) - Z.of_nat skip_index - 1)%Z in
              parts_hi ←
                (if negb (PyStr.truthy (parts !!! 0)) then
                   if negb (parts_hi - 1 =? 0)%Z then None else Some (parts_hi - 1)%Z
                 else Some parts_hi);
              parts_lo ←
                (if negb (PyStr.truthy (parts !!! (length parts - 1))) then
                   if negb (parts_lo - 1 =? 0)%Z then None else Some (parts_lo - 1)%Z
                 else Some parts_lo);
              let parts_skipped := (8 - (parts_hi + parts_lo))%Z in
              if (parts_skipped <? 1)%Z then None
              else Some (parts_hi, parts_lo, parts_skipped)
          | None =>
              if negb (length parts =? 8) then None
              else if negb (PyStr.truthy (parts !!! 0)) then None
              else if negb (PyStr.truthy (parts !!! (length parts - 1))) then None
              else Some (Z.of_nat (length parts), 0, 0)%Z
          end;
        let '(parts_hi, parts_lo, parts_skipped) := counts in
        ip_int ← parse_hextets parts (seq 0 (Z.to_nat parts_hi)) 0%Z;
        let ip_int := Z.shiftl ip_int (16 * parts_skipped) in
        parse_hextets parts
          (seq (length parts - Z.to_nat parts_lo) (Z.to_nat parts_lo)) ip_int.

Definition IPv6Address (address : string) : option (Z * option string) :=
  if PyStr.has_char "/"%char address then None
  else
    split ← split_scope_id address;
    ip_int ← v6_ip_int_from_string split.1;
    Some (ip_int, split.2).

Inductive ip_object : Type :=
  | IPv4 (ip : Z)
  | IPv6 (ip : Z) (scope_id : option string).

Definition ip_address (address : string) : result ip_object :=
  match IPv4Address address with
  | Some ip => Ok (IPv4 ip)
  | None =>
      match IPv6Address address with
      | Some (ip, scope_id) => Ok (IPv6 ip scope_id)
      | None => Raise ValueError
      end
  end.

End Ipaddress.

(** ** [urllib.parse.urlparse]: the [netloc] component

    Follows [urlsplit]: leading control characters and blanks are dropped,
    TAB, CR and LF are removed, a scheme is split off, and after [//] the
    host part runs to the first of [/], [?] and [#].  A host part with one
    square bracket but not the other raises [ValueError]; one with both is
    checked by [_check_bracketed_netloc], which accepts an IPv6 or IPvFuture
    address between the brackets and nothing before or after them but user
    information and a port.  [_checknetloc], the NFKC check, returns at
    once for an ASCII host. *)

Module UrlParse.

Definition is_c0_control_or_space (c : ascii) : bool := PyStr.code c <=? 32.

Definition is_unsafe_byte (c : ascii) : bool :=
  bool_decide (c = "009"%char) || bool_decide (c = "013"%char)
  || bool_decide (c = "010"%char).

Definition is_ascii_alpha (c : ascii) : bool :=
  PyStr.is_upper_char c || PyStr.is_lower_char c.

Definition is_scheme_char (c : ascii) : bool :=
  is_ascii_alpha c || PyStr.is_digit c
  || bool_decide (c = "+"%char) || bool_decide (c = "-"%char)
  || bool_decide (c = "."%char).

(** [s.find(c)] *)
Fixpoint find_char (c : ascii) (s : string) : option nat :=
  match s with
  | EmptyString => None
  | String d s' =>
      if bool_decide (d = c) then Some 0 else S <$> find_char c s'
  end.

Fixpoint all_chars (p : ascii → bool) (s : string) : bool :=
  match s with
  | EmptyString => true
  | String c s' => p c && all_chars p s'
  end.

(** The URL that remains once the scheme is split off *)
Definition strip_scheme (url : string) : string :=
  match find_char ":"%char url, url with
  | Some (S i), String c _ =>
      if is_ascii_alpha c && all_chars is_scheme_char (PyStr.take (S i) url)
      then PyStr.drop (S (S i)) url
      else url
  | _, _ => url
  end.

Definition is_delim (c : ascii) : bool :=
  bool_decide (c = "/"%char) || bool_decide (c = "?"%char)
  || bool_decide (c = "#"%char).

Fixpoint take_until (p : ascii → bool) (s : string) : string :=
  match s with
  | EmptyString => EmptyString
  | String c s' => if p c then EmptyString else String c (take_until p s')
  end.

(** [_splitnetloc(url, 2)], first component *)
Definition splitnetloc (url : string) : string :=
  take_until is_delim (PyStr.drop 2 url).

(** [re.match(r"\Av[a-fA-F0-9]+\..+\Z", hostname)]: the letter v, hex
    digits up to a dot, and after the dot at least one character, none of
    them a line feed *)
Definition is_ipvfuture (hostname : string) : bool :=
  match hostname with
  | String "v"%char rest =>
      match rest with
      | String c _ => Ipaddress.is_hex_digit c
      | EmptyString => false
      end
      && match PyStr.lstrip_with Ipaddress.is_hex_digit rest with
         | String "."%char tail =>
             PyStr.truthy tail && negb (PyStr.has_char "010"%char tail)
         | _ => false
         end
  | _ => false
  end.

Definition check_bracketed_host (hostname : string) : result unit :=
  if PyStr.startswith "v" hostname then
    if negb (is_ipvfuture hostname) then Raise ValueError else Ok tt
  else
    ip ← Ipaddress.ip_address hostname;
    match ip with
    | Ipaddress.IPv4 _ => Raise ValueError
    | Ipaddress.IPv6 _ _ => Ok tt
    end.

Definition check_bracketed_netloc (netloc : string) : result unit :=
  let hostname_and_port := PyStr.rpartition_tail "@"%char netloc in
  let '(before_bracket, have_open_br, bracketed) :=
    PyStr.partition "["%char hostname_and_port in
  if have_open_br : bool then
    if PyStr.truthy before_bracket then Raise ValueError
    else
      let '(hostname, _, port) := PyStr.partition "]"%char bracketed in
      if PyStr.truthy port && negb (PyStr.startswith ":" port)
      then Raise ValueError
      else check_bracketed_host hostname
  else
    let '(hostname, _, port) := PyStr.partition ":"%char hostname_and_port in
    check_bracketed_host hostname.

Definition netloc (url : string) : result string :=
  let url := PyStr.lstrip_with is_c0_control_or_space url in
  let url := PyStr.filter_chars (λ c, negb (is_unsafe_byte c)) url in
  let url := strip_scheme url in
  if String.eqb (PyStr.take 2 url) "//" then
    let netloc := splitnetloc url in
    if xorb (PyStr.has_char "["%char netloc) (PyStr.has_char "]"%char netloc)
    then Raise ValueError
    else if PyStr.has_char "["%char netloc && PyStr.has_char "]"%char netloc
    then _ ← check_bracketed_netloc netloc; Ok netloc
    else Ok netloc
  else Ok EmptyString.

End UrlParse.

(** ** The record schema *)

Inductive status : Type :=
  | READY
  | NEEDS_REVIEW
  | BLOCKED_MISSING_DATA
  | MERGED_DUPLICATE.

#[global] Instance status_eq_dec : EqDecision status.
Proof. solve_decision. Defined.

Definition status_str (s : status) : string :=
  match s with
  | READY => "READY"
  | NEEDS_REVIEW => "NEEDS_REVIEW"
  | BLOCKED_MISSING_DATA => "BLOCKED_MISSING_DATA"
  | MERGED_DUPLICATE => "MERGED_DUPLICATE"
  end.

(** The dictionary that [clean_record] builds has a fixed set of keys; no
    later stage adds or removes one.  It is a record with one field per key.
    Coordinates are JSON numbers, kept as rationals. *)
Record listing : Type := mkListing {
  name : string;
  category : string;
  city : string;
  address : string;
  postcode : string;
  phone : string;
  website : string;
  services : list string;
  rating : Z;
  reviewsCount : Z;
  bookingLink : string;
  logoUrl : string;
  isClaimed : bool;
  description : string;
  seoTitle : string;
  seoDescription : string;
  tags : list string;
  latitude : option Qcanon.Qc;
  longitude : option Qcanon.Qc;
  status_of : status;
  notes : string
}.

Definition set_name (v : string) (r : listing) : listing :=
  let '(mkListing _ ca ci ad po ph we se ra rc bl lu ic de st sd ta la lo ss no) := r in
  mkListing v ca ci ad po ph we se ra rc bl lu ic de st sd ta la lo ss no.
Definition set_category (v : string) (r : listing) : listing :=
  let '(mkListing na _ ci ad po ph we se ra rc bl lu ic de st sd ta la lo ss no) := r in
  mkListing na v ci ad po ph we se ra rc bl lu ic de st sd ta la lo ss no.
Definition set_city (v : string) (r : listing) : listing :=
  let '(mkListing na ca _ ad po ph we se ra rc bl lu ic de st sd ta la lo ss no) := r in
  mkListing na ca v ad po ph we se ra rc bl lu ic de st sd ta la lo ss no.
Definition set_address (v : string) (r : listing) : listing :=
  let '(mkListing na ca ci _ po ph we se ra rc bl lu ic de st sd ta la lo ss no) := r in
  mkListing na ca ci v po ph we se ra rc bl lu ic de st sd ta la lo ss no.
Definition set_postcode (v : string) (r : listing) : listing :=
  let '(mkListing na ca ci ad _ ph we se ra rc bl lu ic de st sd ta la lo ss no) := r in
  mkListing na ca ci ad v ph we se ra rc bl lu ic de st sd ta la lo ss no.
Definition set_phone (v : string) (r : listing) : listing :=
  let '(mkListing na ca ci ad po _ we se ra rc bl lu ic de st sd ta la lo ss no) := r in
  mkListing na ca ci ad po v we se ra rc bl lu ic de st sd ta la lo ss no.
Definition set_website (v : string) (r : listing) : listing :=
  let '(mkListing na ca ci ad po ph _ se ra rc bl lu ic de st sd ta la lo ss no) := r in
  mkListing na ca ci ad po ph v se ra rc bl lu ic de st sd ta la lo ss no.
Definition set_services (v : list string) (r : listing) : listing :=
  let '(mkListing na ca ci ad po ph we _ ra rc bl lu ic de st sd ta la lo ss no) := r in
  mkListing na ca ci ad po ph we v ra rc bl lu ic de st sd ta la lo ss no.
Definition set_bookingLink (v : string) (r : listing) : listing :=
  let '(mkListing na ca ci ad po ph we se ra rc _ lu ic de st sd ta la lo ss no) := r in
  mkListing na ca ci ad po ph we se ra rc v lu ic de st sd ta la lo ss no.
Definition set_logoUrl (v : string) (r : listing) : listing :=
  let '(mkListing na ca ci ad po ph we se ra rc bl _ ic de st sd ta la lo ss no) := r in
  mkListing na ca ci ad po ph we se ra rc bl v ic de st sd ta la lo ss no.
Definition set_description (v : string) (r : listing) : listing :=
  let '(mkListing na ca ci ad po ph we se ra rc bl lu ic _ st sd ta la lo ss no) := r in
  mkListing na ca ci ad po ph we se ra rc bl lu ic v st sd ta la lo ss no.
Definition set_seoTitle (v : string) (r : listing) : listing :=
  let '(mkListing na ca ci ad po ph we se ra rc bl lu ic de _ sd ta la lo ss no) := r in
  mkListing na ca ci ad po ph we se ra rc bl lu ic de v sd ta la lo ss no.
Definition set_seoDescription (v : string) (r : listing) : listing :=
  let '(mkListing na ca ci ad po ph we se ra rc bl lu ic de st _ ta la lo ss no) := r in
  mkListing na ca ci ad po ph we se ra rc bl lu ic de st v ta la lo ss no.
Definition set_tags (v : list string) (r : listing) : listing :=
  let '(mkListing na ca ci ad po ph we se ra rc bl lu ic de st sd _ la lo ss no) := r in
  mkListing na ca ci ad po ph we se ra rc bl lu ic de st sd v la lo ss no.
Definition set_latitude (v : option Qcanon.Qc) (r : listing) : listing :=
  let '(mkListing na ca ci ad po ph we se ra rc bl lu ic de st sd ta _ lo ss no) := r in
  mkListing na ca ci ad po ph we se ra rc bl lu ic de st sd ta v lo ss no.
Definition set_longitude (v : option Qcanon.Qc) (r : listing) : listing :=
  let '(mkListing na ca ci ad po ph we se ra rc bl lu ic de st sd ta la _ ss no) := r in
  mkListing na ca ci ad po ph we se ra rc bl lu ic de st sd ta la v ss no.
Definition set_status (v : status) (r : listing) : listing :=
  let '(mkListing na ca ci ad po ph we se ra rc bl lu ic de st sd ta la lo _ no) := r in
  mkListing na ca ci ad po ph we se ra rc bl lu ic de st sd ta la lo v no.
Definition set_notes (v : string) (r : listing) : listing :=
  let '(mkListing na ca ci ad po ph we se ra rc bl lu ic de st sd ta la lo ss _) := r in
  mkListing na ca ci ad po ph we se ra rc bl lu ic de st sd ta la lo ss v.

(** [record['notes'] += msg] *)
Definition add_note (msg : string) (r : listing) : listing :=
  set_notes (notes r +:+ msg) r.

(** ** Normalizer: [clean_record] *)

(** A row of the CSV file after [load_csv]: column name to cell text. *)
Abbreviation raw_row := (gmap string string).

Definition valid_categories : list string :=
  ["GP"; "Dentist"; "Physio"; "Aesthetics"; "Other"].

(** [x in l] for a list of strings *)
Definition in_list (x : string) (l : list string) : bool := bool_decide (x ∈ l).

(** [key in record and record[key]]: the cell, when present and non-empty *)
Definition present (raw : raw_row) (key : string) : option string :=
  match raw !! key with
  | Some v => if PyStr.truthy v then Some v else None
  | None => None
  end.

(** [record.get(key, '')] *)
Definition get_or_empty (raw : raw_row) (key : string) : string :=
  default EmptyString (raw !! key).

Definition cleaned_default : listing :=
  {| name := ""; category := ""; city := ""; address := ""; postcode := "";
     phone := ""; website := ""; services := []; rating := 0;
     reviewsCount := 0; bookingLink := ""; logoUrl := ""; isClaimed := false;
     description := ""; seoTitle := ""; seoDescription := ""; tags := [];
     latitude := None; longitude := None; status_of := READY; notes := "" |}.

Definition clean_name (raw : raw_row) (cleaned : listing) : listing :=
  match present raw "name" with
  | Some v =>
      let name := PyStr.strip v in
      let name := if negb (PyStr.isupper name) then PyStr.title name else name in
      set_name name cleaned
  | None => cleaned
  end.

Definition clean_category (raw : raw_row) (cleaned : listing) : listing :=
  match present raw "category" with
  | Some v =>
      let category := PyStr.upper (PyStr.strip v) in
      if in_list category ["GP"; "GENERAL PRACTICE"; "DOCTOR"] then
        set_category "GP" cleaned
      else if in_list category ["DENTIST"; "DENTAL"] then
        set_category "Dentist" cleaned
      else if in_list category ["PHYSIO"; "PHYSIOTHERAPY"; "PHYSIOTHERAPIST"] then
        set_category "Physio" cleaned
      else if in_list category ["AESTHETICS"; "AESTHETIC"; "COSMETIC"] then
        set_category "Aesthetics" cleaned
      else if in_list (PyStr.title category) valid_categories then
        set_category (PyStr.title category) cleaned
      else
        add_note ("Category '" +:+ v +:+ "' mapped to Other. ")
                 (set_category "Other" cleaned)
  | None => cleaned
  end.

Definition clean_city (raw : raw_row) (cleaned : listing) : listing :=
  match present raw "city" with
  | Some v => set_city (PyStr.title (PyStr.strip v)) cleaned
  | None => cleaned
  end.

Definition clean_phone (raw : raw_row) (cleaned : listing) : listing :=
  match present raw "phone" with
  | Some v =>
      let phone := PyStr.digits_only v in
      if PyStr.startswith "0" phone then
        set_phone ("+44" +:+ PyStr.drop 1 phone) cleaned
      else if PyStr.startswith "44" phone then
        set_phone ("+" +:+ phone) cleaned
      else if negb (PyStr.startswith "+44" phone) then
        set_phone v (add_note "Phone format unclear. " cleaned)
      else set_phone phone cleaned
  | None => cleaned
  end.

(** The only step that can raise: [urlparse] rejects a host with a single
    square bracket, or with brackets around anything but an IPv6 or
    IPvFuture address. *)
Definition clean_website (raw : raw_row) (cleaned : listing) : result listing :=
  match present raw "website" with
  | Some v =>
      let website := PyStr.strip v in
      let website :=
        if negb (PyStr.startswith "http://" website
                 || PyStr.startswith "https://" website)
        then "https://" +:+ website else website in
      netloc ← UrlParse.netloc website;
      let cleaned :=
        if negb (PyStr.truthy netloc) || negb (PyStr.has_char "."%char netloc)
        then set_status NEEDS_REVIEW
               (add_note "Website URL appears invalid. " cleaned)
        else cleaned in
      mret (set_website website cleaned)
  | None => mret cleaned
  end.

Definition is_service_sep (c : ascii) : bool :=
  bool_decide (c = ";"%char) || bool_decide (c = ","%char).

Definition clean_services (raw : raw_row) (cleaned : listing) : listing :=
  match present raw "services" with
  | Some v =>
      let pieces := PyStr.split_on is_service_sep v in
      set_services
        (PyStr.strip <$> filter (λ s, PyStr.truthy (PyStr.strip s) = true) pieces)
        cleaned
  | None => cleaned
  end.

Definition copy_other_fields (raw : raw_row) (cleaned : listing) : listing :=
  let cleaned :=
    match present raw "bookinglink" with
    | Some v => set_bookingLink (PyStr.strip v) cleaned
    | None => cleaned
    end in
  match present raw "logourl" with
  | Some v => set_logoUrl (PyStr.strip v) cleaned
  | None => cleaned
  end.

Definition clean_record (raw : raw_row) : result listing :=
  let cleaned := cleaned_default in
  let cleaned := clean_name raw cleaned in
  let cleaned := clean_category raw cleaned in
  let cleaned := clean_city raw cleaned in
  let cleaned := set_address (PyStr.strip (get_or_empty raw "address")) cleaned in
  let cleaned :=
    set_postcode (PyStr.upper (PyStr.strip (get_or_empty raw "postcode"))) cleaned in
  let cleaned := clean_phone raw cleaned in
  cleaned ← clean_website raw cleaned;
  let cleaned := clean_services raw cleaned in
  let cleaned := copy_other_fields raw cleaned in
  mret cleaned.

Definition abc_clinic_row : raw_row :=
  list_to_map
    [("name", "ABC CLINIC"); ("category", "dental"); ("phone", "07123456789");
     ("website", "abcclinic.co.uk"); ("city", "leeds"); ("postcode", "ls1 1aa")].

(** ** Validator: [check_required_fields] *)

(** [self.required_fields], each key with the field it reads *)
Definition required_fields : list (string * (listing → string)) :=
  [("name", name); ("category", category); ("city", city)].

Definition missing_fields (r : listing) : list string :=
  let missing :=
    (filter (λ f, PyStr.truthy (f.2 r) = false) required_fields).*1 in
  let has_location := PyStr.truthy (address r) || PyStr.truthy (postcode r) in
  let has_contact := PyStr.truthy (website r) || PyStr.truthy (phone r) in
  let missing :=
    if negb has_location then missing ++ ["address or postcode"] else missing in
  if negb has_contact then missing ++ ["website or phone"] else missing.

Definition check_required_fields (r : listing) : listing :=
  match missing_fields r with
  | [] => r
  | missing =>
      add_note ("Missing required fields: " +:+ PyStr.join ", " missing +:+ ". ")
               (set_status BLOCKED_MISSING_DATA r)
  end.

(** ** SEO synthesizer: [generate_seo_content] *)

Definition replace_char (old new : ascii) (s : string) : string :=
  PyStr.map_chars (λ c, if bool_decide (c = old) then new else c) s.

Definition seo_description_text (r : listing) : string :=
  let desc_parts :=
    [name r +:+ " is a private " +:+ PyStr.lower (category r)
       +:+ " practice located in " +:+ city r +:+ "."] in
  let desc_parts :=
    match services r with
    | [] => desc_parts
    | _ =>
        let service_list := PyStr.join ", " (take 3 (services r)) in
        let sentence := "We offer " +:+ service_list in
        let sentence :=
          if 3 <? length (services r)
          then sentence +:+ " and other services" else sentence in
        desc_parts ++ [sentence +:+ "."]
    end in
  let desc_parts :=
    desc_parts ++
    ["Our experienced team provides high-quality private healthcare services to patients in "
       +:+ city r +:+ " and surrounding areas."] in
  let desc_parts :=
    if PyStr.truthy (website r) || PyStr.truthy (phone r) then
      let contact_info :=
        (if PyStr.truthy (website r) then ["visit our website"] else [])
        ++ (if PyStr.truthy (phone r) then ["call us"] else []) in
      desc_parts ++
      ["To book an appointment, " +:+ PyStr.join " or " contact_info +:+ "."]
    else desc_parts in
  PyStr.join " " desc_parts.

Definition seo_title_text (r : listing) : string :=
  let prefix := category r +:+ " in " +:+ city r +:+ " | " in
  let seo_title := prefix +:+ name r in
  if 60 <? String.length seo_title then
    let max_name_length := (60 - Z.of_nat (String.length prefix))%Z in
    let truncated_name :=
      if (max_name_length <? Z.of_nat (String.length (name r)))%Z
      then PyStr.slice_to (name r) (max_name_length - 3) +:+ "..."
      else name r in
    prefix +:+ truncated_name
  else seo_title.

Definition seo_meta_text (r : listing) : string :=
  let seo_desc :=
    "Professional " +:+ PyStr.lower (category r) +:+ " services at "
      +:+ name r +:+ " in " +:+ city r +:+ ". " in
  let seo_desc :=
    match services r with
    | [] => seo_desc
    | first :: _ => seo_desc +:+ "Specialising in " +:+ PyStr.lower first +:+ ". "
    end in
  let seo_desc := seo_desc +:+ "Book your appointment today." in
  if 155 <? String.length seo_desc
  then PyStr.slice_to seo_desc 152 +:+ "..."
  else seo_desc.

Definition seo_tags (r : listing) : list string :=
  let tags := ["private"] in
  let tags := if PyStr.truthy (city r) then tags ++ [PyStr.lower (city r)] else tags in
  let tags :=
    if PyStr.truthy (category r) then tags ++ [PyStr.lower (category r)] else tags in
  let service_tags :=
    (λ s, replace_char " " "-" (PyStr.lower s)) <$> take 5 (services r) in
  tags ++ service_tags.

(** [name and category and city] *)
Definition has_identity (r : listing) : bool :=
  PyStr.truthy (name r) && PyStr.truthy (category r) && PyStr.truthy (city r).

Definition generate_seo_content (r : listing) : listing :=
  let record := r in
  let record :=
    if has_identity r then set_description (seo_description_text r) record
    else record in
  let record :=
    if has_identity r then set_seoTitle (seo_title_text r) record else record in
  let record :=
    if has_identity r then set_seoDescription (seo_meta_text r) record
    else record in
  set_tags (seo_tags r) record.

(** ** Enricher *)

(** The answer of the geocoding service once it is parsed: a first result
    with its latitude and, unless the key is missing, its longitude; or a
    status other than OK, or an empty result list. *)
Inductive geo_answer : Type :=
  | GeoLocated (lat : Qcanon.Qc) (lng : option Qcanon.Qc)
  | GeoNoResult.

(** The collaborators of the pipeline: the environment variable holding the
    geocoding key, the geocoding service (queried with the free-text
    address; it raises when the request or the parsing of the answer
    fails), the HEAD request (the response status, or the exception
    [urlopen] raised), the rendering [str(e)] of an exception, and the CSV
    file behind a path (the rows the reader yields, each of which may be an
    exception raised while reading). *)
Definition csv_row : Type := list (option string * option string).

Record env : Type := mkEnv {
  google_api_key : option string;
  geocode : string → result geo_answer;
  urlopen_head : string → result nat;
  exn_str : exn → string;
  open_csv : string → result (list (result csv_row))
}.

(** [try: body  except Exception: handler] *)
Definition try_except {A} (body : result A) (handler : exn → result A) : result A :=
  match body with
  | Ok a => Ok a
  | Raise e => handler e
  end.

Definition downgrade_if_ready (r : listing) : listing :=
  if bool_decide (status_of r = READY) then set_status NEEDS_REVIEW r else r.

Definition check_website_availability (E : env) (r : listing) : result listing :=
  if negb (PyStr.truthy (website r)) then mret r
  else if PyStr.contains ".example.com" (website r) then
    mret (add_note "Demo domain - website check skipped. " r)
  else
    try_except
      (response_status ← urlopen_head E (website r);
       if 400 <=? response_status
       then mret (downgrade_if_ready (add_note "Website unreachable. " r))
       else mret r)
      (λ _, mret (downgrade_if_ready (add_note "Website check failed. " r))).

(** The assignments to [latitude] and [longitude] are inside the [try]
    block: when the second one raises [KeyError], the first one has already
    been made. *)
Definition enrich_with_geodata (E : env) (r : listing) : result listing :=
  if negb (from_option PyStr.truthy false (google_api_key E)) then
    mret (add_note "No Google API key for geocoding. " r)
  else
    let address_parts :=
      (if PyStr.truthy (address r) then [address r] else [])
      ++ (if PyStr.truthy (city r) then [city r] else [])
      ++ (if PyStr.truthy (postcode r) then [postcode r] else []) in
    match address_parts with
    | [] => mret r
    | _ =>
        let address := PyStr.join ", " address_parts +:+ ", UK" in
        let geocoding_error e r :=
          add_note ("Geocoding error: " +:+ exn_str E e +:+ ". ") r in
        match geocode E address with
        | Ok (GeoLocated lat (Some lng)) =>
            mret (set_longitude (Some lng) (set_latitude (Some lat) r))
        | Ok (GeoLocated lat None) =>
            mret (geocoding_error KeyError (set_latitude (Some lat) r))
        | Ok GeoNoResult => mret (add_note "Geocoding failed. " r)
        | Raise e => mret (geocoding_error e r)
        end
    end.

(** ** [difflib.SequenceMatcher(None, a, b).ratio()]

    The matcher is built with [isjunk=None] and the default [autojunk=True].
    Indices and sizes are Python integers.  The loops that Python writes as
    [while] run on a counter that is set to the largest number of rounds the
    loop condition allows. *)

Module Difflib.

(** [Match(a, b, size)] *)
Record Match : Type := mkMatch { m_a : Z; m_b : Z; m_size : Z }.

(** [s[i]]: a negative index counts from the end; [None] stands for
    [IndexError]. *)
Definition item (s : list ascii) (i : Z) : option ascii :=
  let n := Z.of_nat (length s) in
  if (0 <=? i)%Z then s !! Z.to_nat i
  else if (0 <=? n + i)%Z then s !! Z.to_nat (n + i)
  else None.

(** [__chain_b]: the positions of every element of [b], in increasing
    order; when [b] has 200 elements or more, the elements that occur more
    than [n // 100 + 1] times are purged.  No element is junk. *)
Definition chain_b (b : list ascii) : gmap ascii (list Z) :=
  let b2j :=
    foldl (λ (b2j : gmap ascii (list Z)) '(i, elt),
             <[elt := default [] (b2j !! elt) ++ [Z.of_nat i]]> b2j)
          ∅ (imap pair b) in
  let n := length b in
  if 200 <=? n then
    let ntest := n / 100 + 1 in
    filter (λ kv, length kv.2 ≤ ntest) b2j
  else b2j.

Definition bjunk : gset ascii := ∅.

Definition isbjunk (c : ascii) : bool := bool_decide (c ∈ bjunk).

(** The inner [for j in b2j.get(a[i], nothing)] of [find_longest_match] *)
Fixpoint scan_row (js : list Z) (i blo bhi : Z) (j2len newj2len : gmap Z Z)
    (best : Match) : gmap Z Z * Match :=
  match js with
  | [] => (newj2len, best)
  | j :: js' =>
      if (j <? blo)%Z then scan_row js' i blo bhi j2len newj2len best
      else if (bhi <=? j)%Z then (newj2len, best)
      else
        let k := (default 0 (j2len !! (j - 1)) + 1)%Z in
        let newj2len := <[j := k]> newj2len in
        let best :=
          if (m_size best <? k)%Z then mkMatch (i - k + 1) (j - k + 1) k
          else best in
        scan_row js' i blo bhi j2len newj2len best
  end%Z.

(** The outer [for i in range(alo, ahi)] *)
Definition scan_rows (a : list ascii) (b2j : gmap ascii (list Z))
    (alo ahi blo bhi : Z) : gmap Z Z * Match :=
  foldl (λ '(j2len, best) i,
           let js :=
             match item a i with
             | Some elt => default [] (b2j !! elt)
             | None => []
             end in
           scan_row js i blo bhi j2len ∅ best)
        (∅, mkMatch alo blo 0) (seqZ alo (ahi - alo)).

(** [x == y and isbjunk(y) == junk] for [x = a[i]], [y = b[j]] *)
Definition same_item (a b : list ascii) (i j : Z) (junk : bool) : bool :=
  match item a i, item b j with
  | Some x, Some y => bool_decide (x = y) && bool_decide (isbjunk y = junk)
  | _, _ => false
  end.

Fixpoint extend_left (rounds : nat) (junk : bool) (a b : list ascii)
    (alo blo : Z) (best : Match) : Match :=
  match rounds with
  | O => best
  | S rounds' =>
      let '(mkMatch besti bestj bestsize) := best in
      if (alo <? besti)%Z && (blo <? bestj)%Z
         && same_item a b (besti - 1)%Z (bestj - 1)%Z junk
      then extend_left rounds' junk a b alo blo
             (mkMatch (besti - 1) (bestj - 1) (bestsize + 1))%Z
      else best
  end.

Fixpoint extend_right (rounds : nat) (junk : bool) (a b : list ascii)
    (ahi bhi : Z) (best : Match) : Match :=
  match rounds with
  | O => best
  | S rounds' =>
      let '(mkMatch besti bestj bestsize) := best in
      if (besti + bestsize <? ahi)%Z && (bestj + bestsize <? bhi)%Z
         && same_item a b (besti + bestsize)%Z (bestj + bestsize)%Z junk
      then extend_right rounds' junk a b ahi bhi
             (mkMatch besti bestj (bestsize + 1))%Z
      else best
  end.

Definition left_rounds (alo : Z) (best : Match) : nat :=
  Z.to_nat (m_a best - alo).

Definition right_rounds (ahi : Z) (best : Match) : nat :=
  Z.to_nat (ahi - (m_a best + m_size best)).

Definition find_longest_match (a b : list ascii) (b2j : gmap ascii (list Z))
    (alo ahi blo bhi : Z) : Match :=
  let best := (scan_rows a b2j alo ahi blo bhi).2 in
  let best := extend_left (left_rounds alo best) false a b alo blo best in
  let best := extend_right (right_rounds ahi best) false a b ahi bhi best in
  let best := extend_left (left_rounds alo best) true a b alo blo best in
  let best := extend_right (right_rounds ahi best) true a b ahi bhi best in
  best.

(** The [while queue] loop of [get_matching_blocks].  The head of [queue]
    is the entry that [queue.pop()] returns.  [None] is returned when
    [rounds] is used up before the queue is empty. *)
Fixpoint match_loop (rounds : nat) (a b : list ascii)
    (b2j : gmap ascii (list Z)) (queue : list (Z * Z * Z * Z))
    (matching_blocks : list Match) : option (list Match) :=
  match queue with
  | [] => Some matching_blocks
  | (alo, ahi, blo, bhi) :: queue =>
      match rounds with
      | O => None
      | S rounds' =>
          let x := find_longest_match a b b2j alo ahi blo bhi in
          let '(mkMatch i j k) := x in
          if bool_decide (k ≠ 0%Z) then
            let matching_blocks := matching_blocks ++ [x] in
            let queue :=
              if (alo <? i)%Z && (blo <? j)%Z
              then (alo, i, blo, j) :: queue else queue in
            let queue :=
              if (i + k <? ahi)%Z && (j + k <? bhi)%Z
              then ((i + k)%Z, ahi, (j + k)%Z, bhi) :: queue else queue in
            match_loop rounds' a b b2j queue matching_blocks
          else match_loop rounds' a b b2j queue matching_blocks
      end
  end.

(** Tuple order, as used by [matching_blocks.sort()] *)
Definition match_leb (x y : Match) : bool :=
  (m_a x <? m_a y)%Z
  || ((m_a x =? m_a y)%Z
      && ((m_b x <? m_b y)%Z
          || ((m_b x =? m_b y)%Z && (m_size x <=? m_size y)%Z))).

Definition match_le (x y : Match) : Prop := match_leb x y = true.

#[global] Instance match_le_dec : RelDecision match_le.
Proof. intros x y. unfold match_le. apply _. Defined.

(** The loop that merges adjacent blocks *)
Definition collapse (matching_blocks : list Match) : list Match :=
  let '(non_adjacent, mkMatch i1 j1 k1) :=
    foldl (λ '(non_adjacent, mkMatch i1 j1 k1) '(mkMatch i2 j2 k2),
             if bool_decide (i1 + k1 = i2)%Z && bool_decide (j1 + k1 = j2)%Z
             then (non_adjacent, mkMatch i1 j1 (k1 + k2)%Z)
             else
               (if bool_decide (k1 ≠ 0%Z)
                then non_adjacent ++ [mkMatch i1 j1 k1] else non_adjacent,
                mkMatch i2 j2 k2))
          ([], mkMatch 0 0 0) matching_blocks in
  if bool_decide (k1 ≠ 0%Z) then non_adjacent ++ [mkMatch i1 j1 k1]
  else non_adjacent.

Definition loop_rounds (a : list ascii) : nat := 2 * length a + 1.

Definition get_matching_blocks (a b : list ascii) : option (list Match) :=
  let la := Z.of_nat (length a) in
  let lb := Z.of_nat (length b) in
  matching_blocks ← match_loop (loop_rounds a) a b (chain_b b) [(0, la, 0, lb)%Z] [];
  let matching_blocks := merge_sort match_le matching_blocks in
  Some (collapse matching_blocks ++ [mkMatch la lb 0]).

(** [sum(triple[-1] for triple in self.get_matching_blocks())] *)
Definition matches (a b : list ascii) : option Z :=
  blocks ← get_matching_blocks a b;
  Some (foldr Z.add 0%Z (m_size <$> blocks)).

(** [_calculate_ratio(matches, length)], as an exact fraction *)
Definition calculate_ratio (matches length : Z) : QArith_base.Q :=
  if bool_decide (length ≠ 0%Z)
  then QArith_base.Qmake (2 * matches) (Z.to_pos length)
  else QArith_base.Qmake 1 1.

Definition ratio (a b : string) : option QArith_base.Q :=
  let a := String.list_ascii_of_string a in
  let b := String.list_ascii_of_string b in
  m ← matches a b;
  Some (calculate_ratio m (Z.of_nat (length a) + Z.of_nat (length b))).

(** [x > y] on fractions *)
Definition Qgtb (x y : QArith_base.Q) : bool := negb (QArith_base.Qle_bool x y).

End Difflib.

(** *** Invariants of the matcher's loops *)

Module DifflibInv.
Import Difflib.

(** A block that lies inside the window [a[alo:ahi]], [b[blo:bhi]] *)
Definition within (alo ahi blo bhi : Z) (m : Match) : Prop :=
  (alo ≤ m_a m ∧ blo ≤ m_b m ∧ 0 ≤ m_size m
   ∧ m_a m + m_size m ≤ ahi ∧ m_b m + m_size m ≤ bhi)%Z.

(** What [j2len] holds when row [i] starts: lengths of matches that end
    just before [a[i]] and at [b[j]] *)
Definition row_ok (alo blo bhi i : Z) (j2len : gmap Z Z) : Prop :=
  ∀ j k, j2len !! j = Some k →
         (1 ≤ k ∧ k ≤ i - alo ∧ k ≤ j - blo + 1 ∧ j < bhi)%Z.

Definition window_ok (w : Z * Z * Z * Z) : Prop :=
  let '(alo, ahi, blo, bhi) := w in (alo ≤ ahi ∧ blo ≤ bhi)%Z.

(** The rounds a window can still cost *)
Definition window_weight (w : Z * Z * Z * Z) : nat :=
  let '(alo, ahi, _, _) := w in 2 * Z.to_nat (ahi - alo) + 1.

Definition queue_weight (queue : list (Z * Z * Z * Z)) : nat :=
  foldr (λ w n, window_weight w + n) 0 queue.

End DifflibInv.

(** ** Deduplicator: [deduplicate_records] *)

(** Website criterion: both websites non-empty and their hosts equal up to
    letter case *)
Definition website_domain_match (record other_record : listing) : result bool :=
  if PyStr.truthy (website record) && PyStr.truthy (website other_record) then
    netloc1 ← UrlParse.netloc (website record);
    netloc2 ← UrlParse.netloc (website other_record);
    let domain1 := PyStr.lower netloc1 in
    let domain2 := PyStr.lower netloc2 in
    mret (bool_decide (domain1 = domain2))
  else mret false.

(** [similarity > 0.8].  The floating-point quotient [2.0 * M / T] exceeds the
    floating-point constant [0.8] exactly when the fraction [2M/T] exceeds
    [4/5], as long as the two names have fewer than 10^15 characters in
    total: a fraction above [4/5] is above it by [1/(5T)] at least, and the
    two doubles next to [0.8] are about [10^-16] apart. *)
Definition similar_enough (similarity : QArith_base.Q) : bool :=
  Difflib.Qgtb similarity (QArith_base.Qmake 8 10).

(** Name criterion: both names non-empty, similar enough, and the same
    non-empty four-character postcode prefix *)
Definition name_postcode_match (record other_record : listing) : bool :=
  if PyStr.truthy (name record) && PyStr.truthy (name other_record) then
    match Difflib.ratio (PyStr.lower (name record))
                        (PyStr.lower (name other_record)) with
    | Some similarity =>
        let postcode1 := PyStr.slice_to (postcode record) 4 in
        let postcode2 := PyStr.slice_to (postcode other_record) 4 in
        similar_enough similarity && bool_decide (postcode1 = postcode2)
        && PyStr.truthy postcode1
    | None => false
    end
  else false.

Definition is_duplicate (record other_record : listing) : result bool :=
  by_website ← website_domain_match record other_record;
  if by_website : bool then mret true
  else mret (name_postcode_match record other_record).

(** The inner loop over [enumerate(records[i+1:], i+1)] *)
Fixpoint find_duplicates (record : listing) (others : list (nat * listing))
    (merged_indices : gset nat) (duplicates : list nat)
    : result (list nat * gset nat) :=
  match others with
  | [] => mret (duplicates, merged_indices)
  | (j, other_record) :: others =>
      if bool_decide (j ∈ merged_indices)
      then find_duplicates record others merged_indices duplicates
      else
        dup ← is_duplicate record other_record;
        if dup : bool
        then find_duplicates record others ({[j]} ∪ merged_indices)
                             (duplicates ++ [j])
        else find_duplicates record others merged_indices duplicates
  end.

(** Truth values of the other field types *)
Definition list_truthy {A} (l : list A) : bool :=
  match l with [] => false | _ => true end.

Definition int_truthy (z : Z) : bool := negb (z =? 0)%Z.

Definition number_truthy (x : option Qcanon.Qc) : bool :=
  match x with
  | Some q => negb (bool_decide (q = Qcanon.Q2Qc (QArith_base.Qmake 0 1)))
  | None => false
  end.

(** [if not best_record.get(key) and value: best_record[key] = value],
    for one key *)
Definition fill {A} (truthy : A → bool) (best dup : A) : A :=
  if negb (truthy best) && truthy dup then dup else best.

(** The loop over [dup_record.items()] *)
Definition merge_into (best dup : listing) : listing :=
  {| name := fill PyStr.truthy (name best) (name dup);
     category := fill PyStr.truthy (category best) (category dup);
     city := fill PyStr.truthy (city best) (city dup);
     address := fill PyStr.truthy (address best) (address dup);
     postcode := fill PyStr.truthy (postcode best) (postcode dup);
     phone := fill PyStr.truthy (phone best) (phone dup);
     website := fill PyStr.truthy (website best) (website dup);
     services := fill list_truthy (services best) (services dup);
     rating := fill int_truthy (rating best) (rating dup);
     reviewsCount := fill int_truthy (reviewsCount best) (reviewsCount dup);
     bookingLink := fill PyStr.truthy (bookingLink best) (bookingLink dup);
     logoUrl := fill PyStr.truthy (logoUrl best) (logoUrl dup);
     isClaimed := fill id (isClaimed best) (isClaimed dup);
     description := fill PyStr.truthy (description best) (description dup);
     seoTitle := fill PyStr.truthy (seoTitle best) (seoTitle dup);
     seoDescription :=
       fill PyStr.truthy (seoDescription best) (seoDescription dup);
     tags := fill list_truthy (tags best) (tags dup);
     latitude := fill number_truthy (latitude best) (latitude dup);
     longitude := fill number_truthy (longitude best) (longitude dup);
     status_of :=
       fill (λ s, PyStr.truthy (status_str s)) (status_of best) (status_of dup);
     notes := fill PyStr.truthy (notes best) (notes dup) |}.

(** One round of [for dup_idx in duplicates]: the updated base and the
    duplicate as it is appended to the output *)
Definition fold_duplicate (best_record dup_record : listing) : listing * listing :=
  let best_record := merge_into best_record dup_record in
  let dup_record := set_status MERGED_DUPLICATE dup_record in
  let dup_record :=
    add_note ("Merged into record: " +:+ name best_record +:+ ". ") dup_record in
  (best_record, dup_record).

(** [records] is the list whose dictionaries the loop updates in place. *)
Fixpoint fold_duplicates (duplicates : list nat) (best_record : listing)
    (records deduplicated : list listing)
    : listing * list listing * list listing :=
  match duplicates with
  | [] => (best_record, records, deduplicated)
  | dup_idx :: duplicates =>
      match records !! dup_idx with
      | Some dup_record =>
          let '(best_record, dup_record) := fold_duplicate best_record dup_record in
          fold_duplicates duplicates best_record
            (<[dup_idx := dup_record]> records) (deduplicated ++ [dup_record])
      | None => (best_record, records, deduplicated)
      end
  end.

Fixpoint dedup_loop (indices : list nat) (records : list listing)
    (merged_indices : gset nat) (deduplicated : list listing)
    : result (list listing) :=
  match indices with
  | [] => mret deduplicated
  | i :: indices =>
      match records !! i with
      | None => mret deduplicated
      | Some record =>
          if bool_decide (i ∈ merged_indices)
          then dedup_loop indices records merged_indices deduplicated
          else
            found ← find_duplicates record (drop (S i) (imap pair records))
                                    merged_indices [];
            let '(duplicates, merged_indices) := found in
            let '(best_record, records, deduplicated) :=
              fold_duplicates duplicates record records deduplicated in
            let best_record :=
              if list_truthy duplicates
              then add_note ("Merged " +:+ pretty (length duplicates)
                               +:+ " duplicate(s). ") best_record
              else best_record in
            dedup_loop indices records merged_indices
                       (deduplicated ++ [best_record])
      end
  end.

Definition deduplicate_records (records : list listing) : result (list listing) :=
  dedup_loop (seq 0 (length records)) records ∅ [].

(** *** The dictionary view of a record

    The keys of the dictionary, the value stored under a key, and the truth
    value Python gives it. *)

Inductive field : Type :=
  | F_name | F_category | F_city | F_address | F_postcode | F_phone
  | F_website | F_services | F_rating | F_reviewsCount | F_bookingLink
  | F_logoUrl | F_isClaimed | F_description | F_seoTitle | F_seoDescription
  | F_tags | F_latitude | F_longitude | F_status | F_notes.

#[global] Instance field_eq_dec : EqDecision field.
Proof. solve_decision. Defined.

Inductive value : Type :=
  | VStr (s : string)
  | VList (l : list string)
  | VInt (z : Z)
  | VBool (b : bool)
  | VNumber (x : option Qcanon.Qc)
  | VStatus (s : status).

(** [record[key]] *)
Definition get (f : field) (r : listing) : value :=
  match f with
  | F_name => VStr (name r)
  | F_category => VStr (category r)
  | F_city => VStr (city r)
  | F_address => VStr (address r)
  | F_postcode => VStr (postcode r)
  | F_phone => VStr (phone r)
  | F_website => VStr (website r)
  | F_services => VList (services r)
  | F_rating => VInt (rating r)
  | F_reviewsCount => VInt (reviewsCount r)
  | F_bookingLink => VStr (bookingLink r)
  | F_logoUrl => VStr (logoUrl r)
  | F_isClaimed => VBool (isClaimed r)
  | F_description => VStr (description r)
  | F_seoTitle => VStr (seoTitle r)
  | F_seoDescription => VStr (seoDescription r)
  | F_tags => VList (tags r)
  | F_latitude => VNumber (latitude r)
  | F_longitude => VNumber (longitude r)
  | F_status => VStatus (status_of r)
  | F_notes => VStr (notes r)
  end.

Definition value_truthy (v : value) : bool :=
  match v with
  | VStr s => PyStr.truthy s
  | VList l => list_truthy l
  | VInt z => int_truthy z
  | VBool b => b
  | VNumber x => number_truthy x
  | VStatus s => PyStr.truthy (status_str s)
  end.

(** ** Loader: [load_csv] *)

(** One row of [csv.DictReader]: the key is [None] for the surplus cells of
    a row longer than the header, the value is [None] for a cell the row
    lacks. *)
Definition normalize_row (row : csv_row) : result raw_row :=
  foldl (λ acc '(key, value),
           normalized_row ← acc;
           match key with
           | None => Raise AttributeError
           | Some key =>
               let normalized_key := replace_char " " "_" (PyStr.lower key) in
               let cell :=
                 match value with
                 | Some v => if PyStr.truthy v then PyStr.strip v else ""
                 | None => ""
                 end in
               mret (<[normalized_key := cell]> (normalized_row : raw_row))
           end)
        (mret ∅) row.

(** The body of the [try] block once the file is open: the rows appended to
    [records], and the exception that stopped the loop, if any. *)
Fixpoint load_rows (reader : list (result csv_row)) (records : list raw_row)
    : list raw_row * option exn :=
  match reader with
  | [] => (records, None)
  | Raise e :: _ => (records, Some e)
  | Ok row :: reader =>
      match normalize_row row with
      | Ok normalized_row => load_rows reader (records ++ [normalized_row])
      | Raise e => (records, Some e)
      end
  end.

(** [except Exception] only prints; [records] is returned in every case. *)
Definition load_csv (E : env) (file_path : string) : result (list raw_row) :=
  match open_csv E file_path with
  | Raise _ => mret []
  | Ok reader => mret (load_rows reader []).1
  end.

(** ** The pipeline: [process_records] *)

Inductive outcome : Type :=
  | ErrorDict (error : string)
  | Processed (records : list listing) (total_processed total_output : nat).

Definition clean_and_check (raw : raw_row) : result listing :=
  cleaned ← clean_record raw;
  mret (check_required_fields cleaned).

Definition enrich (E : env) (r : listing) : result listing :=
  if bool_decide (status_of r ≠ MERGED_DUPLICATE) then
    r ← enrich_with_geodata E r;
    check_website_availability E r
  else mret r.

Definition synthesize (r : listing) : listing :=
  if bool_decide (status_of r ∈ [READY; NEEDS_REVIEW])
  then generate_seo_content r else r.

Definition process_records (E : env) (input_file : string) : result outcome :=
  raw_records ← load_csv E input_file;
  match raw_records with
  | [] => mret (ErrorDict "No records loaded")
  | _ =>
      cleaned_records ← mapM clean_and_check raw_records;
      deduplicated_records ← deduplicate_records cleaned_records;
      enriched_records ← mapM (enrich E) deduplicated_records;
      let final_records := synthesize <$> enriched_records in
      mret (Processed final_records (length raw_records) (length final_records))
  end.

(** ** Sample inputs *)

(** A row for a practice in the Anglesey village with the 58-letter name *)
Definition llanfair_row : raw_row :=
  list_to_map
    [("name", "Smile Dental"); ("category", "dentist");
     ("city", "llanfairpwllgwyngyllgogerychwyrndrobwllllantysiliogogogoch");
     ("postcode", "ll61 5uj"); ("phone", "01248 714000")].

(** An environment in which the input file does not exist, no geocoding key
    is set, and every website answers with a server error *)
Definition missing_file_env : env :=
  {| google_api_key := None;
     geocode := λ _, Raise URLError;
     urlopen_head := λ _, Raise (HTTPError 500);
     exn_str := λ _, "error";
     open_csv := λ _, Raise FileNotFoundError |}.

(** The same environment with a file that holds a header line and no row *)
Definition empty_file_env : env :=
  {| google_api_key := None;
     geocode := λ _, Raise URLError;
     urlopen_head := λ _, Raise (HTTPError 500);
     exn_str := λ _, "error";
     open_csv := λ _, Ok [] |}.

Definition oak_dental (s : status) : listing :=
  {| name := "Oak Dental"; category := "Dentist"; city := "Leeds";
     address := ""; postcode := "LS1 1AA"; phone := "";
     website := "https://oakdental.co.uk"; services := []; rating := 0;
     reviewsCount := 0; bookingLink := ""; logoUrl := ""; isClaimed := false;
     description := ""; seoTitle := ""; seoDescription := ""; tags := [];
     latitude := None; longitude := None; status_of := s; notes := "" |}.

(** Two practices in the same postcode area with similar names *)
Definition studio (n p : string) : listing :=
  {| name := n; category := "Physio"; city := "Leeds"; address := "";
     postcode := p; phone := "+441132000000"; website := ""; services := [];
     rating := 0; reviewsCount := 0; bookingLink := ""; logoUrl := "";
     isClaimed := false; description := ""; seoTitle := "";
     seoDescription := ""; tags := []; latitude := None; longitude := None;
     status_of := READY; notes := "" |}.

Definition studio_practice : listing := studio "Studio Practice" "LS1 1AA".
Definition studio_private : listing := studio "Studio Private" "LS1 2BB".
Definition studio_privat : listing := studio "Studio Privat" "LS1 3CC".

(** A duplicate of [oak_dental] found through its website *)
Definition oak_dental_care : listing :=
  {| name := "Oak Dental Care"; category := "Other"; city := "";
     address := "1 Park Row"; postcode := "LS1 5HD"; phone := "+441132000000";
     website := "https://OAKDENTAL.co.uk/contact"; services := ["Implants"];
     rating := 0; reviewsCount := 0; bookingLink := ""; logoUrl := "";
     isClaimed := false; description := ""; seoTitle := "";
     seoDescription := ""; tags := []; latitude := None; longitude := None;
     status_of := BLOCKED_MISSING_DATA;
     notes := "Missing required fields: city. " |}.

(** ** Predicates used in the statements about the stages *)

(** A string that is empty or starts with a character outside [p] *)
Definition head_kept (p : ascii → bool) (s : string) : Prop :=
  match s with
  | EmptyString => True
  | String c _ => p c = false
  end.

(** A column name as [load_csv] leaves it: no upper-case letter, no blank *)
Definition normalized_key (key : string) : Prop :=
  PyStr.any_char PyStr.is_upper_char key = false
  ∧ PyStr.has_char " " key = false.

(** What every row built by [normalize_row] satisfies *)
Definition row_normalized (row : raw_row) : Prop :=
  ∀ key v, row !! key = Some v → normalized_key key ∧ PyStr.strip v = v.

(** A file whose third line has more cells than the header *)
Definition ragged_file_env : env :=
  {| google_api_key := None;
     geocode := λ _, Raise URLError;
     urlopen_head := λ _, Raise (HTTPError 500);
     exn_str := λ _, "error";
     open_csv := λ _,
       Ok [ Ok [(Some "Name", Some " Oak Dental "); (Some "Phone Number", None)];
            Ok [(Some "Name", Some "Elm Physio"); (Some "Phone Number", Some "0113")];
            Ok [(Some "Name", Some "Ash GP"); (Some "Phone Number", Some "0114");
                (None, Some "surplus")];
            Ok [(Some "Name", Some "Yew Clinic"); (Some "Phone Number", Some "0115")] ] |}.

(** The positions of [l] that are not marked as merged *)
Definition unmerged (merged_indices : gset nat) (l : list nat) : nat :=
  length (filter (λ j, j ∉ merged_indices) l).

(** The duplicates of a base as the inner loop appends them: each one is
    marked against the base as it is once that duplicate is merged in *)
Fixpoint marked_duplicates (best_record : listing) (dups : list listing)
    : list listing :=
  match dups with
  | [] => []
  | dup_record :: dups =>
      (fold_duplicate best_record dup_record).2
      :: marked_duplicates (fold_duplicate best_record dup_record).1 dups
  end.

(** The records of [others] that the inner loop reports for [record],
    when none of them is marked yet *)
Definition duplicates_of (record : listing) (others : list listing)
    : list listing :=
  filter (λ other_record, is_duplicate record other_record = Ok true) others.

(** The base as the outer loop appends it after its duplicates *)
Definition merged_base (record : listing) (dups : list listing) : listing :=
  let best_record := foldl merge_into record dups in
  if list_truthy dups
  then add_note ("Merged " +:+ pretty (length dups) +:+ " duplicate(s). ")
                best_record
  else best_record.

(** An input record [r] and the output record [r'] made of it: the notes
    are extended; a record emitted as a duplicate has its status replaced
    and every other field as it was, a record emitted as a base keeps
    every field that was not empty. *)
Definition kept_as (r r' : listing) : Prop :=
  String.prefix (notes r) (notes r') = true
  ∧ ((status_of r' = MERGED_DUPLICATE
      ∧ ∀ f, f ≠ F_status → f ≠ F_notes → get f r' = get f r)
     ∨ (∀ f, f ≠ F_notes → value_truthy (get f r) = true → get f r' = get f r)).

(** Two unrelated practices whose website cells held only a path *)
Definition path_only (n w : string) : listing :=
  {| name := n; category := "GP"; city := "Leeds"; address := "";
     postcode := ""; phone := ""; website := w; services := [];
     rating := 0; reviewsCount := 0; bookingLink := ""; logoUrl := "";
     isClaimed := false; description := ""; seoTitle := "";
     seoDescription := ""; tags := []; latitude := None; longitude := None;
     status_of := NEEDS_REVIEW; notes := "Website URL appears invalid. " |}.

(** A record whose website [urlparse] accepts *)
Definition website_parses (r : listing) : Prop :=
  raises (UrlParse.netloc (website r)) = false.

(** A file with one good row and one row whose website has a name in
    square brackets *)
Definition bracket_file_env : env :=
  {| google_api_key := None;
     geocode := λ _, Raise URLError;
     urlopen_head := λ _, Raise (HTTPError 500);
     exn_str := λ _, "error";
     open_csv := λ _,
       Ok [ Ok [(Some "name", Some "Oak Dental"); (Some "website", Some "oakdental.co.uk")];
            Ok [(Some "name", Some "Elm Physio"); (Some "website", Some "http://[elm].co.uk")] ] |}.

(** A file with the ABC CLINIC row alone; no geocoding key, and a website
    that answers *)
Definition one_row_env : env :=
  {| google_api_key := None;
     geocode := λ _, Raise URLError;
     urlopen_head := λ _, Ok 200;
     exn_str := λ _, "error";
     open_csv := λ _,
       Ok [ Ok [(Some "Name", Some "ABC CLINIC"); (Some "Category", Some "dental");
                (Some "Phone", Some "07123456789");
                (Some "Website", Some "abcclinic.co.uk");
                (Some "City", Some "leeds"); (Some "Postcode", Some "ls1 1aa")] ] |}.

(** * Properties *)

(** ** Facts about the string primitives *)

Module PyStrFacts.
Import PyStr.

Lemma length_app (s t : string) :
  String.length (s +:+ t) = String.length s + String.length t.
Proof. induction s as [|c s IH]; simpl; [done | by rewrite IH]. Qed.

Lemma length_take (n : nat) (s : string) :
  String.length (take n s) = n `min` String.length s.
Proof.
  revert s; induction n as [|n IH]; intros [|c s]; simpl; try done.
  by rewrite IH.
Qed.

Lemma truthy_length (s : string) : truthy s = true ↔ 0 < String.length s.
Proof. destruct s; simpl; split; (done || lia). Qed.

Lemma truthy_false (s : string) : truthy s = false ↔ s = EmptyString.
Proof. destruct s; simpl; split; done. Qed.

End PyStrFacts.

Example lower_ex : PyStr.lower "DENTAL Care 24" = "dental care 24".
Proof. reflexivity. Qed.

Example title_ex : PyStr.title "o'neil's dental care" = "O'Neil'S Dental Care".
Proof. reflexivity. Qed.

Example title_postcode_ex : PyStr.title "ls1 1aa" = "Ls1 1Aa".
Proof. reflexivity. Qed.

Example isupper_ex :
  PyStr.isupper "ABC CLINIC" = true ∧ PyStr.isupper "Abc" = false
  ∧ PyStr.isupper "123" = false.
Proof. by vm_compute. Qed.

Example strip_ex : PyStr.strip "  a b  " = "a b".
Proof. reflexivity. Qed.

Example split_ex :
  PyStr.split_on (λ c, bool_decide (c = ";"%char) || bool_decide (c = ","%char))
    "a;b,,c" = ["a"; "b"; ""; "c"].
Proof. reflexivity. Qed.

Example slice_ex :
  PyStr.slice_to "abcdef" 2 = "ab" ∧ PyStr.slice_to "abcdef" (-2) = "abcd"
  ∧ PyStr.slice_to "abc" (-7) = "" ∧ PyStr.slice_to "abc" 9 = "abc".
Proof. by vm_compute. Qed.

Example netloc_ex1 :
  UrlParse.netloc "https://abcclinic.co.uk" = Ok "abcclinic.co.uk".
Proof. reflexivity. Qed.

Example netloc_ex2 :
  UrlParse.netloc "http://Example.com:80/a/b?x=1#f" = Ok "Example.com:80".
Proof. reflexivity. Qed.

Example netloc_ex3 : UrlParse.netloc "https://localhost" = Ok "localhost".
Proof. reflexivity. Qed.

Example netloc_ex4 : UrlParse.netloc "https://[bad" = Raise ValueError.
Proof. reflexivity. Qed.

Example netloc_ex5 : UrlParse.netloc "mailto:someone" = Ok "".
Proof. reflexivity. Qed.

Example netloc_ex6 : UrlParse.netloc "http://[elm].co.uk" = Raise ValueError.
Proof. reflexivity. Qed.

Example netloc_ex7 :
  UrlParse.netloc "http://user@[2001:db8::1.2.3.4]:8080/x" = Ok "user@[2001:db8::1.2.3.4]:8080".
Proof. reflexivity. Qed.

Example netloc_ex8 : UrlParse.netloc "http://[1.2.3.4]/" = Raise ValueError.
Proof. reflexivity. Qed.

Example ip_address_ex :
  Ipaddress.ip_address "::ffff:1.2.3.4" = Ok (Ipaddress.IPv6 281470698652420 None).
Proof. reflexivity. Qed.

Example clean_abc_clinic :
  clean_record abc_clinic_row =
  Ok {| name := "ABC CLINIC"; category := "Dentist"; city := "Leeds";
        address := ""; postcode := "LS1 1AA"; phone := "+447123456789";
        website := "https://abcclinic.co.uk"; services := []; rating := 0;
        reviewsCount := 0; bookingLink := ""; logoUrl := "";
        isClaimed := false; description := ""; seoTitle := "";
        seoDescription := ""; tags := []; latitude := None; longitude := None;
        status_of := READY; notes := "" |}.
Proof. by vm_compute. Qed.

Example ratio_ex1 : Difflib.ratio "abcd" "bcde" = Some (QArith_base.Qmake 6 8).
Proof. by vm_compute. Qed.

Example ratio_ex2 : Difflib.ratio "tide" "diet" = Some (QArith_base.Qmake 2 8).
Proof. by vm_compute. Qed.

Example ratio_ex3 : Difflib.ratio "diet" "tide" = Some (QArith_base.Qmake 4 8).
Proof. by vm_compute. Qed.

Example blocks_ex :
  Difflib.get_matching_blocks (String.list_ascii_of_string "abxcd")
                              (String.list_ascii_of_string "abcd")
  = Some [Difflib.mkMatch 0 0 2; Difflib.mkMatch 3 2 2; Difflib.mkMatch 5 4 0].
Proof. by vm_compute. Qed.

(** ** Setters and the fields they leave alone *)

Ltac unfold_result :=
  unfold mret, mbind, result_ret, result_bind in *; simpl in *.

Lemma category_add_note msg r : category (add_note msg r) = category r.
Proof. by destruct r. Qed.

Lemma category_clean_city raw c : category (clean_city raw c) = category c.
Proof. unfold clean_city. destruct (present raw "city"); by destruct c. Qed.

Lemma category_clean_phone raw c : category (clean_phone raw c) = category c.
Proof.
  unfold clean_phone. destruct (present raw "phone"); [|done].
  repeat case_match; by destruct c.
Qed.

Lemma category_clean_website raw c c' :
  clean_website raw c = Ok c' → category c' = category c.
Proof.
  unfold clean_website. unfold_result.
  destruct (present raw "website"); [|by intros [= <-]].
  destruct (UrlParse.netloc _); [|done].
  intros [= <-]. repeat case_match; by destruct c.
Qed.

Lemma category_clean_services raw c :
  category (clean_services raw c) = category c.
Proof. unfold clean_services. destruct (present raw "services"); by destruct c. Qed.

Lemma category_copy_other_fields raw c :
  category (copy_other_fields raw c) = category c.
Proof.
  unfold copy_other_fields.
  destruct (present raw "bookinglink"), (present raw "logourl"); by destruct c.
Qed.

Lemma category_clean_name raw c : category (clean_name raw c) = category c.
Proof. unfold clean_name. destruct (present raw "name"); by destruct c. Qed.

(** The category that [clean_record] returns is the one [clean_category]
    writes. *)
Lemma clean_record_category_step raw r :
  clean_record raw = Ok r →
  category r = category (clean_category raw (clean_name raw cleaned_default)).
Proof.
  unfold clean_record. unfold_result.
  destruct (clean_website raw _) as [c'|e] eqn:Hweb; [|done].
  intros [= <-].
  rewrite category_copy_other_fields, category_clean_services.
  rewrite (category_clean_website _ _ _ Hweb), category_clean_phone.
  set (c0 := clean_category raw _).
  transitivity (category (clean_city raw c0)); [|apply category_clean_city].
  by destruct (clean_city raw c0).
Qed.

Lemma in_list_true x l : in_list x l = true → x ∈ l.
Proof. unfold in_list. apply bool_decide_eq_true_1. Qed.

Lemma clean_category_present raw c v :
  present raw "category" = Some v →
  category (clean_category raw c) ∈ valid_categories.
Proof.
  intros Hv. unfold clean_category. rewrite Hv.
  repeat case_match; rewrite ?category_add_note;
    destruct c; simpl; by apply (bool_decide_eq_true_1 _).
Qed.

Lemma clean_category_absent raw c :
  present raw "category" = None →
  category (clean_category raw c) = category c.
Proof. intros Hv. unfold clean_category. by rewrite Hv. Qed.

(** ** Normalizer *)

(** C9.  The row with name "ABC CLINIC", category "dental", phone
    "07123456789", website "abcclinic.co.uk", city "leeds" and postcode
    "ls1 1aa" is cleaned into a record that keeps the upper-case name, has
    category "Dentist", phone "+447123456789", website
    "https://abcclinic.co.uk" and status READY. *)
Theorem clean_record_abc_clinic_scenario :
  ∃ r, clean_record abc_clinic_row = Ok r
       ∧ name r = "ABC CLINIC"
       ∧ category r = "Dentist"
       ∧ phone r = "+447123456789"
       ∧ website r = "https://abcclinic.co.uk"
       ∧ status_of r = READY.
Proof. eexists. split; [by vm_compute|]. by repeat split. Qed.

(** C2, as the claim states it, fails on a row that has no category cell and
    on a row whose category cell is empty: the cleaned category is the
    empty string, which is none of the five valid values. *)
Lemma clean_record_category_not_total :
  (∃ r, clean_record ∅ = Ok r ∧ category r = ""
        ∧ category r ∉ valid_categories)
  ∧ (∃ r, clean_record {[ "category" := "" ]} = Ok r ∧ category r = ""
          ∧ category r ∉ valid_categories).
Proof.
  split; (eexists; split; [by vm_compute|]); simpl;
    (split; [done|]); by apply (bool_decide_eq_false_1 _).
Qed.

(** C2, amended.  Whenever [clean_record] returns a record: if the row has a
    non-empty category cell, the cleaned category is one of GP, Dentist,
    Physio, Aesthetics, Other; if the category cell is absent or empty, the
    cleaned category is the empty string. *)
Theorem clean_record_category_valid_or_empty (raw : raw_row) (r : listing) :
  clean_record raw = Ok r →
  (∀ v, raw !! "category" = Some v → v ≠ "" → category r ∈ valid_categories)
  ∧ (raw !! "category" = None ∨ raw !! "category" = Some "" → category r = "").
Proof.
  intros Hr. rewrite (clean_record_category_step _ _ Hr). split.
  - intros v Hv Hne. apply (clean_category_present _ _ v).
    unfold present. rewrite Hv. by destruct v.
  - intros Habs. rewrite clean_category_absent.
    + rewrite category_clean_name. done.
    + unfold present. by destruct Habs as [-> | ->].
Qed.

(** The row of the ABC CLINIC scenario has the category cell "dental". *)
Lemma clean_record_category_valid_or_empty_witness :
  category
    {| name := "ABC CLINIC"; category := "Dentist"; city := "Leeds";
       address := ""; postcode := "LS1 1AA"; phone := "+447123456789";
       website := "https://abcclinic.co.uk"; services := []; rating := 0;
       reviewsCount := 0; bookingLink := ""; logoUrl := "";
       isClaimed := false; description := ""; seoTitle := "";
       seoDescription := ""; tags := []; latitude := None; longitude := None;
       status_of := READY; notes := "" |} ∈ valid_categories.
Proof.
  refine (proj1 (clean_record_category_valid_or_empty abc_clinic_row _ _)
                "dental" _ _).
  - vm_compute. reflexivity.
  - vm_compute. reflexivity.
  - discriminate.
Defined.

(** ** Validator *)

(** C6.  [check_required_fields] sets the status to BLOCKED_MISSING_DATA and
    appends one note that lists every missing-field label exactly when a
    required check fails (name, category or city empty; address and postcode
    both empty; website and phone both empty), whatever the status was
    before, and returns the record unchanged when every check passes. *)
Theorem check_required_fields_blocks_exactly_when_missing (r : listing) :
  let labels :=
    (if decide (name r = "") then ["name"] else [])
    ++ (if decide (category r = "") then ["category"] else [])
    ++ (if decide (city r = "") then ["city"] else [])
    ++ (if decide (address r = "" ∧ postcode r = "")
        then ["address or postcode"] else [])
    ++ (if decide (website r = "" ∧ phone r = "")
        then ["website or phone"] else []) in
  let violated :=
    name r = "" ∨ category r = "" ∨ city r = ""
    ∨ (address r = "" ∧ postcode r = "") ∨ (website r = "" ∧ phone r = "") in
  (violated →
     status_of (check_required_fields r) = BLOCKED_MISSING_DATA
     ∧ notes (check_required_fields r)
       = notes r +:+ "Missing required fields: "
                 +:+ PyStr.join ", " labels +:+ ". "
     ∧ labels ≠ []
     ∧ check_required_fields r
       = set_notes (notes (check_required_fields r))
                   (set_status BLOCKED_MISSING_DATA r))
  ∧ (¬ violated → check_required_fields r = r).
Proof.
  destruct r as [na ca ci ad po ph we se ra rc bl lu ic de st sd ta la lo ss no].
  cbn [name category city address postcode website phone notes status_of].
  destruct na as [|? ?], ca as [|? ?], ci as [|? ?], ad as [|? ?],
    po as [|? ?], we as [|? ?], ph as [|? ?].
  all: split; [try (intros _; repeat split; by vm_compute)|].
  all: try (intros [?|[?|[?|[[??]|[??]]]]]; discriminate).
  all: intros Hv; first [by vm_compute | exfalso; apply Hv; auto 10].
Qed.

(** A record that lacks its city, its address and its postcode, and that
    the normalizer had marked NEEDS_REVIEW *)
Lemma check_required_fields_blocks_exactly_when_missing_witness :
  let r :=
    {| name := "Oak Dental"; category := "Dentist"; city := "";
       address := ""; postcode := ""; phone := "+441132000000";
       website := "https://localhost"; services := []; rating := 0;
       reviewsCount := 0; bookingLink := ""; logoUrl := "";
       isClaimed := false; description := ""; seoTitle := "";
       seoDescription := ""; tags := []; latitude := None; longitude := None;
       status_of := NEEDS_REVIEW; notes := "Website URL appears invalid. " |} in
  status_of (check_required_fields r) = BLOCKED_MISSING_DATA
  ∧ notes (check_required_fields r)
    = "Website URL appears invalid. Missing required fields: city, address or postcode. ".
Proof.
  intros r.
  destruct (proj1 (check_required_fields_blocks_exactly_when_missing r))
    as (Hs & Hn & _).
  - right; right; left. reflexivity.
  - split; [exact Hs | exact Hn].
Defined.

(** ** SEO synthesizer *)

(** The synthesizer reads name, category, city, services, website and phone
    and writes none of them. *)
Lemma generate_seo_content_inputs (r : listing) :
  name (generate_seo_content r) = name r
  ∧ category (generate_seo_content r) = category r
  ∧ city (generate_seo_content r) = city r
  ∧ services (generate_seo_content r) = services r
  ∧ website (generate_seo_content r) = website r
  ∧ phone (generate_seo_content r) = phone r.
Proof.
  unfold generate_seo_content.
  destruct (has_identity r); by destruct r.
Qed.

Lemma generate_seo_content_texts (r : listing) :
  has_identity (generate_seo_content r) = has_identity r
  ∧ seo_description_text (generate_seo_content r) = seo_description_text r
  ∧ seo_title_text (generate_seo_content r) = seo_title_text r
  ∧ seo_meta_text (generate_seo_content r) = seo_meta_text r
  ∧ seo_tags (generate_seo_content r) = seo_tags r.
Proof.
  destruct (generate_seo_content_inputs r) as (Hn & Hca & Hci & Hs & Hw & Hp).
  unfold has_identity, seo_description_text, seo_title_text, seo_meta_text,
    seo_tags.
  by rewrite Hn, Hca, Hci, Hs, Hw, Hp.
Qed.

(** C8.  Running [generate_seo_content] on its own result gives the same
    description, seoTitle, seoDescription and tags as running it once; in
    fact it gives the same record. *)
Theorem generate_seo_content_idempotent (r : listing) :
  let once := generate_seo_content r in
  let twice := generate_seo_content (generate_seo_content r) in
  description twice = description once
  ∧ seoTitle twice = seoTitle once
  ∧ seoDescription twice = seoDescription once
  ∧ tags twice = tags once
  ∧ twice = once.
Proof.
  assert (generate_seo_content (generate_seo_content r) = generate_seo_content r)
    as Heq.
  { destruct (generate_seo_content_texts r) as (Hi & Hd & Ht & Hm & Hg).
    unfold generate_seo_content at 1. rewrite Hi, Hd, Ht, Hm, Hg.
    unfold generate_seo_content.
    destruct (has_identity r); by destruct r. }
  simpl. by rewrite Heq.
Qed.

Lemma has_identity_false (r : listing) :
  name r = "" ∨ category r = "" ∨ city r = "" → has_identity r = false.
Proof.
  unfold has_identity. intros [-> | [-> | ->]]; simpl; [done| |].
  - by rewrite andb_false_r.
  - by rewrite andb_false_r.
Qed.

(** C10.  When name, category or city is empty, [generate_seo_content]
    leaves description, seoTitle and seoDescription as they were, and still
    replaces the tags by a list built from scratch, whose first element is
    "private" and which does not depend on the tags the record had. *)
Theorem generate_seo_content_partial_without_identity (r : listing) :
  name r = "" ∨ category r = "" ∨ city r = "" →
  description (generate_seo_content r) = description r
  ∧ seoTitle (generate_seo_content r) = seoTitle r
  ∧ seoDescription (generate_seo_content r) = seoDescription r
  ∧ (∃ rest, tags (generate_seo_content r) = "private" :: rest)
  ∧ "private" ∈ tags (generate_seo_content r)
  ∧ (∀ old, tags (generate_seo_content (set_tags old r))
            = tags (generate_seo_content r)).
Proof.
  intros Hempty. apply has_identity_false in Hempty.
  assert (∀ r', tags (generate_seo_content r') = seo_tags r') as Htags.
  { intros r'. unfold generate_seo_content.
    destruct (has_identity r'); by destruct r'. }
  assert (∃ rest, seo_tags r = "private" :: rest) as [rest Hrest].
  { unfold seo_tags. repeat case_match; simpl; eauto. }
  unfold generate_seo_content at 1 2 3. rewrite Hempty.
  repeat split; try by destruct r.
  - exists rest. by rewrite Htags.
  - rewrite Htags, Hrest. apply list_elem_of_here.
  - intros old. rewrite !Htags. by destruct r.
Qed.

(** A record without a city keeps its texts and gets new tags. *)
Lemma generate_seo_content_partial_without_identity_witness :
  let r :=
    {| name := "Oak Dental"; category := "Dentist"; city := "";
       address := ""; postcode := "LS1 1AA"; phone := "+441132000000";
       website := ""; services := ["Implants"]; rating := 0;
       reviewsCount := 0; bookingLink := ""; logoUrl := "";
       isClaimed := false; description := "kept"; seoTitle := "kept too";
       seoDescription := ""; tags := ["stale"]; latitude := None;
       longitude := None; status_of := NEEDS_REVIEW; notes := "" |} in
  description (generate_seo_content r) = "kept"
  ∧ seoTitle (generate_seo_content r) = "kept too"
  ∧ "private" ∈ tags (generate_seo_content r).
Proof.
  intros r.
  destruct (generate_seo_content_partial_without_identity r)
    as (Hd & Ht & _ & _ & Hin & _).
  - right; right. reflexivity.
  - split; [exact Hd | split; [exact Ht | exact Hin]].
Defined.

(** The meta description is cut at 155 characters. *)
Lemma seo_meta_text_length (r : listing) :
  String.length (seo_meta_text r) ≤ 155.
Proof.
  unfold seo_meta_text.
  match goal with |- context [155 <? String.length ?s] => generalize s end.
  intros s. destruct (155 <? String.length s) eqn:Hlen.
  - change (PyStr.slice_to s 152) with (PyStr.take 152 s).
    rewrite PyStrFacts.length_app, PyStrFacts.length_take.
    change (String.length "...") with 3. lia.
  - apply Nat.ltb_ge in Hlen. exact Hlen.
Qed.

(** The title is cut at 60 characters as long as category and city leave
    room for the ellipsis. *)
Lemma seo_title_text_length (r : listing) :
  String.length (category r +:+ " in " +:+ city r +:+ " | ") ≤ 57 →
  String.length (seo_title_text r) ≤ 60.
Proof.
  unfold seo_title_text.
  generalize (category r +:+ " in " +:+ city r +:+ " | "). intros prefix Hp.
  destruct (60 <? _) eqn:Hlen.
  - rewrite PyStrFacts.length_app in Hlen. apply Nat.ltb_lt in Hlen.
    case_match eqn:Hcmp.
    + rewrite !PyStrFacts.length_app. unfold PyStr.slice_to.
      case_match eqn:Hneg; [apply Z.ltb_lt in Hneg; lia|].
      rewrite PyStrFacts.length_take.
      change (String.length "...") with 3. lia.
    + apply Z.ltb_ge in Hcmp. lia.
  - apply Nat.ltb_ge in Hlen. exact Hlen.
Qed.

(** C1.  The title exceeds 60 characters for a practice in
    Llanfairpwllgwyngyllgogerychwyrndrobwllllantysiliogogogoch: category and
    city alone take 72 characters, the name is cut from its end by a
    negative slice bound and the ellipsis is appended, which gives 75
    characters.  The record is READY, so the pipeline does synthesize its
    SEO content.  Its meta description stays within 155 characters. *)
Theorem generate_seo_content_title_exceeds_60 :
  ∃ r, clean_and_check llanfair_row = Ok r
       ∧ status_of r = READY
       ∧ seoTitle (generate_seo_content r)
         = "Dentist in Llanfairpwllgwyngyllgogerychwyrndrobwllllantysiliogogogoch | ..."
       ∧ String.length (seoTitle (generate_seo_content r)) = 75
       ∧ String.length (seoDescription (generate_seo_content r)) ≤ 155.
Proof.
  eexists. split; [by vm_compute|]. repeat split.
  vm_compute. lia.
Qed.

(** ** Enricher: the reachability check *)

Lemma status_downgrade_if_ready (r : listing) :
  status_of (downgrade_if_ready r)
  = if decide (status_of r = READY) then NEEDS_REVIEW else status_of r.
Proof.
  unfold downgrade_if_ready.
  destruct (decide (status_of r = READY)) as [Heq|Hne].
  - rewrite bool_decide_eq_true_2 by done. by destruct r.
  - by rewrite bool_decide_eq_false_2.
Qed.

Lemma notes_downgrade_if_ready (r : listing) :
  notes (downgrade_if_ready r) = notes r.
Proof. unfold downgrade_if_ready. case_bool_decide; by destruct r. Qed.

Lemma status_add_note msg (r : listing) : status_of (add_note msg r) = status_of r.
Proof. by destruct r. Qed.

Lemma notes_add_note msg (r : listing) : notes (add_note msg r) = notes r +:+ msg.
Proof. by destruct r. Qed.

(** C7.  [check_website_availability] always returns a record, it never
    raises.  When the check fails (the website is non-empty, is not a demo
    domain, and the request raises or answers with a status of 400 or
    more), a note is appended and the status becomes NEEDS_REVIEW if it was
    READY and stays as it was otherwise.  In every case a status other than
    READY, BLOCKED_MISSING_DATA in particular, is left unchanged. *)
Theorem check_website_availability_downgrades_only_ready (E : env) (r : listing) :
  let failed note :=
    website r ≠ ""
    ∧ PyStr.contains ".example.com" (website r) = false
    ∧ ((note = "Website check failed. "
        ∧ ∃ e, urlopen_head E (website r) = Raise e)
       ∨ (note = "Website unreachable. "
          ∧ ∃ code, urlopen_head E (website r) = Ok code ∧ 400 ≤ code)) in
  ∃ r', check_website_availability E r = Ok r'
        ∧ (∀ note, failed note →
             notes r' = notes r +:+ note
             ∧ status_of r'
               = if decide (status_of r = READY) then NEEDS_REVIEW
                 else status_of r)
        ∧ (status_of r = BLOCKED_MISSING_DATA →
           status_of r' = BLOCKED_MISSING_DATA)
        ∧ (status_of r ≠ READY → status_of r' = status_of r).
Proof.
  cbv zeta. unfold check_website_availability, try_except.
  unfold mret, mbind, result_ret, result_bind.
  destruct (PyStr.truthy (website r)) eqn:Hweb; cbv beta iota delta [negb].
  2: { exists r. split; [done|]. split; [|by split].
       intros note (Hne & _). apply PyStrFacts.truthy_false in Hweb. done. }
  destruct (PyStr.contains ".example.com" (website r)) eqn:Hdemo.
  { eexists. split; [reflexivity|]. rewrite status_add_note. split; [|by split].
    by intros note (_ & [=] & _). }
  destruct (urlopen_head E (website r)) as [code|e] eqn:Hopen.
  - destruct (400 <=? code) eqn:Hcode.
    + eexists. split; [reflexivity|].
      rewrite status_downgrade_if_ready, notes_downgrade_if_ready,
        status_add_note, notes_add_note.
      split; [|split; [by intros ->|intros Hne; by destruct (decide _)]].
      intros note (_ & _ & [[_ [e [=]]] | [-> _]]). done.
    + exists r. split; [done|]. split; [|by split].
      intros note (_ & _ & [[_ [e [=]]] | [_ (code' & [= <-] & Hge)]]).
      apply Nat.leb_gt in Hcode. lia.
  - eexists. split; [reflexivity|].
    rewrite status_downgrade_if_ready, notes_downgrade_if_ready,
      status_add_note, notes_add_note.
    split; [|split; [by intros ->|intros Hne; by destruct (decide _)]].
    intros note (_ & _ & [[-> _] | [_ (code & [=] & _)]]). done.
Qed.

(** A server error downgrades a READY record and leaves a blocked one
    blocked. *)
Lemma check_website_availability_downgrades_only_ready_witness :
  (∃ r', check_website_availability missing_file_env (oak_dental READY) = Ok r'
         ∧ status_of r' = NEEDS_REVIEW
         ∧ notes r' = "Website check failed. ")
  ∧ (∃ r', check_website_availability missing_file_env
             (oak_dental BLOCKED_MISSING_DATA) = Ok r'
           ∧ status_of r' = BLOCKED_MISSING_DATA).
Proof.
  split.
  - destruct (check_website_availability_downgrades_only_ready
                missing_file_env (oak_dental READY))
      as (r' & Hok & Hfail & _ & _).
    exists r'. split; [exact Hok|].
    destruct (Hfail "Website check failed. ") as [Hn Hs].
    + split; [discriminate|]. split; [reflexivity|].
      left. split; [reflexivity|]. eexists. reflexivity.
    + split; [exact Hs | exact Hn].
  - destruct (check_website_availability_downgrades_only_ready
                missing_file_env (oak_dental BLOCKED_MISSING_DATA))
      as (r' & Hok & _ & Hblocked & _).
    exists r'. split; [exact Hok|]. apply Hblocked. reflexivity.
Defined.

(** ** Loader and pipeline *)

(** C4.  The run of the repository's own test, [test_api_mode.py], when
    its input file does not exist: opening the file raises
    [FileNotFoundError], [load_csv] catches it and returns the empty list,
    and [process_records] returns the dictionary [{'error': 'No records
    loaded'}].  No [IOError]-class error reaches the caller, whose
    [except FileNotFoundError] branch is there to report the missing file.
    A file without rows gives the same dictionary. *)
Theorem process_records_missing_file_not_raised :
  open_csv missing_file_env "input/test_clinics.csv" = Raise FileNotFoundError
  ∧ load_csv missing_file_env "input/test_clinics.csv" = Ok []
  ∧ process_records missing_file_env "input/test_clinics.csv"
    = Ok (ErrorDict "No records loaded")
  ∧ process_records empty_file_env "input/test_clinics.csv"
    = Ok (ErrorDict "No records loaded")
  ∧ ¬ (∃ e, is_IOError e = true
            ∧ process_records missing_file_env "input/test_clinics.csv"
              = Raise e).
Proof.
  repeat split; try reflexivity.
  intros (e & _ & Hraise). discriminate Hraise.
Qed.

(** The same in every environment: when the input file cannot be opened
    or holds no row, [load_csv] returns the empty list and
    [process_records] returns [{'error': 'No records loaded'}] without
    running any later stage; it raises nothing. *)
Lemma process_records_without_input (E : env) (input_file : string) :
  (∃ e, open_csv E input_file = Raise e) ∨ open_csv E input_file = Ok [] →
  load_csv E input_file = Ok []
  ∧ process_records E input_file = Ok (ErrorDict "No records loaded")
  ∧ raises (process_records E input_file) = false.
Proof.
  intros Hopen.
  assert (load_csv E input_file = Ok []) as Hload.
  { unfold load_csv. by destruct Hopen as [[e ->] | ->]. }
  unfold process_records. rewrite Hload. by repeat split.
Qed.

(** ** Deduplicator: folding a duplicate into its base *)

Lemma fold_duplicates_extends (duplicates : list nat) (best : listing)
    (records deduplicated : list listing) :
  deduplicated `prefix_of` (fold_duplicates duplicates best records deduplicated).2.
Proof.
  revert best records deduplicated.
  induction duplicates as [|d ds IH]; intros best records out; simpl; [done|].
  destruct (records !! d) as [dup|]; simpl; [|done].
  etrans; [|apply IH]. by apply prefix_app_r.
Qed.

Lemma dedup_loop_extends (indices : list nat) (records : list listing)
    (merged_indices : gset nat) (deduplicated res : list listing) :
  dedup_loop indices records merged_indices deduplicated = Ok res →
  deduplicated `prefix_of` res.
Proof.
  revert records merged_indices deduplicated.
  induction indices as [|i indices IH]; intros records merged out; simpl.
  - by intros [= <-].
  - destruct (records !! i) as [record|]; [|by intros [= <-]].
    case_bool_decide; [apply IH|].
    unfold mbind, result_bind.
    destruct (find_duplicates _ _ _ _) as [[duplicates merged']|e]; [|done].
    pose proof (fold_duplicates_extends duplicates record records out) as Hext.
    destruct (fold_duplicates duplicates record records out)
      as [[best records'] out'].
    simpl in Hext. intros Hres. apply IH in Hres.
    etrans; [exact Hext|]. etrans; [|exact Hres]. by apply prefix_app_r.
Qed.

Lemma prefix_app_self s t : String.prefix s (s +:+ t) = true.
Proof.
  induction s as [|c s IH]; simpl; [by destruct t|].
  destruct (Ascii.ascii_dec c c); [exact IH|done].
Qed.

Lemma prefix_refl s : String.prefix s s = true.
Proof.
  induction s as [|c s IH]; simpl; [done|].
  destruct (Ascii.ascii_dec c c); [exact IH|done].
Qed.

Lemma prefix_empty s : String.prefix "" s = true.
Proof. by destruct s. Qed.

Lemma enumerate_indices (records : list listing) (i : nat) :
  (drop (S i) (imap pair records)).*1 = seq (S i) (length records - S i).
Proof.
  rewrite fmap_drop, fmap_imap.
  rewrite (imap_ext _ (λ j _, id j)) by done.
  rewrite imap_seq_0, list_fmap_id. apply drop_seq.
Qed.

(** ** Deduplicator: what the loops compute *)

Lemma filter_ext_elem {A} (P Q : A → Prop)
    `{!∀ x, Decision (P x)} `{!∀ x, Decision (Q x)} (l : list A) :
  (∀ x, x ∈ l → P x ↔ Q x) → filter P l = filter Q l.
Proof.
  induction l as [|x l IH]; intros HPQ; [done|].
  assert (filter P l = filter Q l) as Hl.
  { apply IH. intros y Hy. apply HPQ. by apply list_elem_of_further. }
  pose proof (HPQ x (list_elem_of_here x l)) as Hx.
  rewrite !filter_cons.
  destruct (decide (P x)), (decide (Q x)); try tauto; by rewrite Hl.
Qed.

Lemma enumerate_lookup (records : list listing) (i j : nat) (x : listing) :
  (j, x) ∈ drop (S i) (imap pair records) → S i ≤ j ∧ records !! j = Some x.
Proof.
  intros Hin. apply list_elem_of_lookup in Hin as [k Hk].
  rewrite lookup_drop, list_lookup_imap in Hk.
  destruct (records !! (S i + k)) as [y|] eqn:Hy; [|done].
  injection Hk as <- <-. split; [lia|done].
Qed.

(** The inner loop reports the later positions that are not marked yet and
    hold a duplicate of [record], in their order, and marks them. *)
Lemma find_duplicates_found record others merged dups dups' merged' :
  NoDup others.*1 →
  find_duplicates record others merged dups = Ok (dups', merged') →
  let found :=
    filter (λ p, (p.1 ∉ merged) ∧ is_duplicate record p.2 = Ok true) others in
  dups' = dups ++ found.*1 ∧ merged' = list_to_set found.*1 ∪ merged.
Proof.
  revert merged dups.
  induction others as [|[j other] others IH]; intros merged dups Hnd.
  - simpl. unfold mret, result_ret. intros [= <- <-].
    split; [by rewrite app_nil_r|set_solver].
  - rewrite fmap_cons in Hnd. cbn [fst] in Hnd.
    apply NoDup_cons in Hnd as [Hj Hnd].
    cbn [find_duplicates]. unfold mbind, result_bind.
    rewrite filter_cons. cbn [fst snd].
    case_bool_decide as Hmerged.
    + intros Hrec. destruct (IH _ _ Hnd Hrec) as [-> ->].
      rewrite decide_False by tauto. done.
    + destruct (is_duplicate record other) as [[|]|e] eqn:Hdup; [| |done].
      * intros Hrec. destruct (IH _ _ Hnd Hrec) as [-> ->].
        rewrite decide_True by done.
        rewrite (filter_ext_elem
                   (λ p, (p.1 ∉ {[j]} ∪ merged) ∧ is_duplicate record p.2 = Ok true)
                   (λ p, (p.1 ∉ merged) ∧ is_duplicate record p.2 = Ok true)).
        2: { intros [k x] Hk. cbn [fst snd].
             assert (k ≠ j).
             { intros ->. apply Hj. apply list_elem_of_fmap. by exists (j, x). }
             set_solver. }
        rewrite fmap_cons. cbn [fst]. rewrite <- app_assoc. simpl.
        split; [done|set_solver].
      * intros Hrec. destruct (IH _ _ Hnd Hrec) as [-> ->].
        rewrite decide_False; [done|]. intros [_ ?]. done.
Qed.

Lemma fold_duplicates_found (found : list (nat * listing)) best cur out :
  NoDup found.*1 →
  Forall (λ p, cur !! p.1 = Some p.2) found →
  ∃ cur', fold_duplicates found.*1 best cur out
          = (foldl merge_into best found.*2, cur',
             out ++ marked_duplicates best found.*2)
          ∧ length cur' = length cur
          ∧ ∀ k, k ∉ found.*1 → cur' !! k = cur !! k.
Proof.
  revert best cur out.
  induction found as [|[j x] found IH]; intros best cur out Hnd Hall.
  - exists cur. simpl. by rewrite app_nil_r.
  - rewrite fmap_cons in Hnd. cbn [fst] in Hnd.
    apply NoDup_cons in Hnd as [Hj Hnd].
    apply Forall_cons in Hall as [Hx Hall]. cbn [fst snd] in Hx.
    rewrite !fmap_cons. cbn [fst snd fold_duplicates marked_duplicates foldl].
    rewrite Hx.
    change (fold_duplicate best x)
      with (merge_into best x, (fold_duplicate best x).2).
    cbv beta iota.
    destruct (IH (merge_into best x) (<[j:=(fold_duplicate best x).2]> cur)
                 (out ++ [(fold_duplicate best x).2]))
      as (cur' & Heq & Hlen & Hframe).
    { done. }
    { apply Forall_forall. intros [k y] Hin.
      rewrite Forall_forall in Hall. specialize (Hall _ Hin).
      cbn [fst snd] in *.
      rewrite list_lookup_insert_ne; [done|].
      intros ->. apply Hj. apply list_elem_of_fmap. by exists (k, y). }
    exists cur'. rewrite Heq, <- app_assoc. simpl.
    split; [done|]. split; [by rewrite Hlen, length_insert|].
    intros k Hk. apply not_elem_of_cons in Hk as [Hne Hk].
    rewrite (Hframe k Hk). by rewrite list_lookup_insert_ne.
Qed.

Lemma fmap_length_truthy {A B} (l : list (A * B)) :
  list_truthy l.*1 = list_truthy l.*2 ∧ length l.*1 = length l.*2.
Proof. destruct l; [done|]. by rewrite !fmap_cons, !length_cons, !length_fmap. Qed.

(** One round of the outer loop at a position that is not marked: the
    duplicates found are appended as the fold marks them, then the base;
    only the records at their positions are replaced. *)
Lemma dedup_loop_step i indices cur merged out res record :
  cur !! i = Some record → i ∉ merged →
  dedup_loop (i :: indices) cur merged out = Ok res →
  let found :=
    filter (λ p, (p.1 ∉ merged) ∧ is_duplicate record p.2 = Ok true)
           (drop (S i) (imap pair cur)) in
  ∃ cur', length cur' = length cur
          ∧ (∀ k, k ∉ found.*1 → cur' !! k = cur !! k)
          ∧ dedup_loop indices cur' (list_to_set found.*1 ∪ merged)
              (out ++ marked_duplicates record found.*2
                   ++ [merged_base record found.*2]) = Ok res.
Proof.
  intros Hi Hm. cbn [dedup_loop]. rewrite Hi.
  rewrite bool_decide_eq_false_2 by done.
  unfold mbind, result_bind.
  destruct (find_duplicates _ _ _ _) as [[dups merged']|e] eqn:Hfind; [|done].
  assert (NoDup (drop (S i) (imap pair cur)).*1) as Hnd.
  { rewrite enumerate_indices. apply NoDup_seq. }
  apply find_duplicates_found in Hfind as [-> ->]; [|exact Hnd].
  cbv beta iota zeta. cbn [app].
  set (found := filter _ _).
  destruct (fold_duplicates_found found record cur out)
    as (cur' & Heq & Hlen & Hframe).
  { eapply sublist_NoDup; [exact Hnd|].
    apply fmap_sublist, sublist_filter. }
  { apply Forall_forall. intros [j x] Hin.
    apply list_elem_of_filter in Hin as [_ Hin].
    by apply enumerate_lookup in Hin as [_ ?]. }
  rewrite Heq. intros Hres.
  exists cur'. split; [done|]. split; [done|].
  unfold merged_base.
  destruct (fmap_length_truthy found) as [<- <-].
  by rewrite app_assoc.
Qed.

Lemma prefix_app_r_str s t u :
  String.prefix s t = true → String.prefix s (t +:+ u) = true.
Proof.
  revert t. induction s as [|c s IH]; intros t; [by destruct t, u|].
  destruct t as [|d t]; simpl; [done|].
  destruct (Ascii.ascii_dec c d); [apply IH|done].
Qed.

Lemma merge_into_keeps best dup f :
  value_truthy (get f best) = true → get f (merge_into best dup) = get f best.
Proof. destruct f; simpl; unfold fill; by intros ->. Qed.

Lemma foldl_merge_into_keeps dups best f :
  value_truthy (get f best) = true →
  get f (foldl merge_into best dups) = get f best.
Proof.
  revert best. induction dups as [|dup dups IH]; intros best Hbest; [done|].
  simpl. rewrite IH; by rewrite merge_into_keeps.
Qed.

Lemma notes_foldl_merge_into dups best :
  String.prefix (notes best) (notes (foldl merge_into best dups)) = true.
Proof.
  destruct (PyStr.truthy (notes best)) eqn:Hn.
  - pose proof (foldl_merge_into_keeps dups best F_notes Hn) as H.
    injection H as ->. apply prefix_refl.
  - apply PyStrFacts.truthy_false in Hn as ->. apply prefix_empty.
Qed.

Lemma get_add_note msg r f : f ≠ F_notes → get f (add_note msg r) = get f r.
Proof. intros Hf. destruct f; try done; by destruct r. Qed.


(** *** The round of a base that no earlier record has absorbed *)

Lemma drop_enumerate (records : list listing) (n : nat) :
  drop n (imap pair records) = imap (λ k x, (n + k, x)) (drop n records).
Proof.
  apply list_eq. intros k.
  rewrite lookup_drop, !list_lookup_imap, lookup_drop. done.
Qed.

Lemma filter_enumerated (record : listing) (merged : gset nat)
    (l : list listing) :
  ∀ off, (∀ k, off ≤ k → k ∉ merged) →
  (filter (λ p, (p.1 ∉ merged) ∧ is_duplicate record p.2 = Ok true)
          (imap (λ k x, (off + k, x)) l)).*2
  = filter (λ d, is_duplicate record d = Ok true) l.
Proof.
  induction l as [|x l IH]; intros off Hoff; [done|].
  rewrite imap_cons, !filter_cons. cbn [fst snd].
  rewrite (imap_ext _ (λ k y, (S off + k, y))).
  2: { intros k y _. simpl. f_equal. lia. }
  specialize (IH (S off) ltac:(intros k ?; apply Hoff; lia)).
  destruct (decide (is_duplicate record x = Ok true)) as [HQ|HQ].
  - rewrite decide_True; [|split; [apply Hoff; lia|done]].
    rewrite fmap_cons. cbn [snd]. by rewrite IH.
  - rewrite decide_False by tauto. exact IH.
Qed.

Lemma marked_duplicates_elem best dups1 dup dups2 :
  (fold_duplicate (foldl merge_into best dups1) dup).2
  ∈ marked_duplicates best (dups1 ++ dup :: dups2).
Proof.
  revert best. induction dups1 as [|d dups1 IH]; intros best; simpl.
  - apply list_elem_of_here.
  - apply list_elem_of_further, IH.
Qed.

(** The rounds of the records before the base, none of which is a
    duplicate of a record from position [P] on, mark and replace records
    before [P] only. *)
Lemma dedup_loop_prefix (records : list listing) (P : nat) :
  (∀ i r j x, i < P → records !! i = Some r → P ≤ j → records !! j = Some x →
              is_duplicate r x ≠ Ok true) →
  P ≤ length records →
  ∀ m i cur merged out tail res,
    i + m = P → length cur = length records →
    (∀ j, j ∈ merged → j < P) →
    (∀ j, j ∉ merged → cur !! j = records !! j) →
    dedup_loop (seq i m ++ tail) cur merged out = Ok res →
    ∃ cur' merged' out',
      length cur' = length records
      ∧ (∀ j, j ∈ merged' → j < P)
      ∧ (∀ j, j ∉ merged' → cur' !! j = records !! j)
      ∧ dedup_loop tail cur' merged' out' = Ok res.
Proof.
  intros Hloner HP.
  induction m as [|m IH]; intros i cur merged out tail res Him Hlen Hm Hcur.
  - simpl. intros Hres. by exists cur, merged, out.
  - cbn [seq app].
    destruct (lookup_lt_is_Some_2 cur i ltac:(lia)) as [record Hi].
    destruct (decide (i ∈ merged)) as [Hin|Hin].
    + cbn [dedup_loop]. rewrite Hi, bool_decide_eq_true_2 by done.
      apply IH; [lia|done..].
    + intros Hres.
      apply dedup_loop_step with (record := record) in Hres; [|done|done].
      destruct Hres as (cur' & Hlen' & Hframe & Hres).
      set (found := filter _ _) in *.
      assert (∀ j, j ∈ found.*1 → j < P) as Hfound.
      { intros j Hj. apply list_elem_of_fmap in Hj as ([j' x] & -> & Hjx).
        apply list_elem_of_filter in Hjx as [[Hj Hdup] Hjx].
        apply enumerate_lookup in Hjx as [? Hjx]. cbn [fst snd] in *.
        destruct (decide (j' < P)) as [|Hge]; [done|]. exfalso.
        apply (Hloner i record j' x); [lia| |lia| |done].
        - by rewrite <- Hcur.
        - by rewrite <- Hcur. }
      apply IH in Hres; [done|lia|congruence| |].
      * intros j Hj. apply elem_of_union in Hj as [Hj|Hj]; [|by apply Hm].
        apply Hfound. by apply elem_of_list_to_set in Hj.
      * intros j Hj. apply not_elem_of_union in Hj as [Hj1 Hj2].
        rewrite Hframe; [by apply Hcur|].
        intros Hj. apply Hj1. by apply elem_of_list_to_set.
Qed.

(** The round of the base: it finds every duplicate among the records
    after it, and appends them, marked, and then the base. *)
Lemma dedup_loop_base (records : list listing) (P : nat) (record : listing)
    indices cur merged out res :
  records !! P = Some record →
  length cur = length records →
  (∀ j, j ∈ merged → j < P) →
  (∀ j, j ∉ merged → cur !! j = records !! j) →
  dedup_loop (P :: indices) cur merged out = Ok res →
  let dups := duplicates_of record (drop (S P) records) in
  (∀ d, d ∈ marked_duplicates record dups → d ∈ res)
  ∧ merged_base record dups ∈ res.
Proof.
  intros HP Hlen Hm Hcur Hres dups.
  assert (P ∉ merged) as HPm by (intros ?%Hm; lia).
  apply dedup_loop_step with (record := record) in Hres;
    [|by rewrite Hcur|done].
  destruct Hres as (cur' & _ & _ & Hres).
  assert (drop (S P) cur = drop (S P) records) as Hdrop.
  { apply list_eq. intros k. rewrite !lookup_drop. apply Hcur.
    intros ?%Hm. lia. }
  rewrite drop_enumerate, Hdrop in Hres.
  assert ((filter (λ p, (p.1 ∉ merged) ∧ is_duplicate record p.2 = Ok true)
                  (imap (λ k x, (S P + k, x)) (drop (S P) records))).*2
          = dups) as Hdups.
  { apply filter_enumerated. intros k ? ?%Hm. lia. }
  rewrite Hdups in Hres. apply dedup_loop_extends in Hres.
  split.
  - intros d Hd. eapply elem_of_prefix; [|exact Hres].
    apply elem_of_app. right. apply elem_of_app. by left.
  - eapply elem_of_prefix; [|exact Hres].
    apply elem_of_app. right. apply elem_of_app. right. apply list_elem_of_here.
Qed.

Lemma fold_duplicate_fields (best dup : listing) :
  let best' := (fold_duplicate best dup).1 in
  let dup' := (fold_duplicate best dup).2 in
  (∀ f, value_truthy (get f best) = false → value_truthy (get f dup) = true →
        get f best' = get f dup)
  ∧ (∀ f, value_truthy (get f best) = true ∨ value_truthy (get f dup) = false →
          get f best' = get f best)
  ∧ status_of dup' = MERGED_DUPLICATE
  ∧ notes dup' = notes dup +:+ "Merged into record: " +:+ name best' +:+ ". "
  ∧ (∀ f, f ≠ F_status → f ≠ F_notes → get f dup' = get f dup).
Proof.
  cbv zeta. unfold fold_duplicate. simpl.
  split; [|split; [|split; [|split]]].
  - intros f Hb Hd. destruct f; simpl in *; unfold fill; by rewrite Hb, Hd.
  - intros f Hor.
    destruct f; simpl in *; unfold fill;
      destruct Hor as [-> | ->]; simpl; by rewrite ?andb_false_r.
  - by destruct dup.
  - by destruct dup.
  - intros f Hs Hn. destruct f; try done; by destruct dup.
Qed.

Lemma duplicates_of_split record between dup later :
  is_duplicate record dup = Ok true →
  duplicates_of record (between ++ dup :: later)
  = duplicates_of record between ++ dup :: duplicates_of record later.
Proof.
  intros Hdup. unfold duplicates_of.
  by rewrite filter_app, filter_cons, decide_True.
Qed.


(** C5.  Take any input in which a record [dup] is a duplicate of a record
    [base_record] before it, and no record before [base_record] is a
    duplicate of a record from [base_record] on.  When
    [deduplicate_records] returns, [dup] has been folded into the base as
    it was then, [best]: [base_record] with the duplicates between the two
    merged in.  Every field of [best] whose value is falsy takes the value
    of [dup] if that one is truthy, and every other field of [best] keeps
    its value.  The duplicate is in the output with status MERGED_DUPLICATE
    and with the note "Merged into record: " followed by the base's name,
    all its other fields being as they were.  The base is in the output
    too, and every field that had a value after this fold, apart from the
    notes, still has it there. *)
Theorem deduplicate_records_fills_base_and_keeps_duplicate
    (earlier between later res : list listing) (base_record dup : listing) :
  deduplicate_records (earlier ++ base_record :: between ++ dup :: later)
  = Ok res →
  (∀ r x, r ∈ earlier → x ∈ base_record :: between ++ dup :: later →
          is_duplicate r x ≠ Ok true) →
  is_duplicate base_record dup = Ok true →
  let best := foldl merge_into base_record (duplicates_of base_record between) in
  let best' := (fold_duplicate best dup).1 in
  let dup' := (fold_duplicate best dup).2 in
  let final :=
    merged_base base_record
                (duplicates_of base_record (between ++ dup :: later)) in
  (∀ f, value_truthy (get f best) = false → value_truthy (get f dup) = true →
        get f best' = get f dup)
  ∧ (∀ f, value_truthy (get f best) = true ∨ value_truthy (get f dup) = false →
          get f best' = get f best)
  ∧ status_of dup' = MERGED_DUPLICATE
  ∧ notes dup' = notes dup +:+ "Merged into record: " +:+ name best' +:+ ". "
  ∧ (∀ f, f ≠ F_status → f ≠ F_notes → get f dup' = get f dup)
  ∧ dup' ∈ res
  ∧ final ∈ res
  ∧ (∀ f, f ≠ F_notes → value_truthy (get f best') = true →
          get f final = get f best').
Proof.
  intros Hres Hloner Hdup best best' dup' final.
  set (rest := between ++ dup :: later) in *.
  set (records := earlier ++ base_record :: rest) in *.
  set (P := length earlier).
  assert (length records = P + S (length rest)) as Hn.
  { unfold records. by rewrite length_app. }
  assert (records !! P = Some base_record) as HP.
  { unfold records. by rewrite list_lookup_middle. }
  assert (drop (S P) records = rest) as Hdrop.
  { unfold records. rewrite (cons_middle base_record), app_assoc.
    apply drop_app_length'. rewrite length_app. simpl. lia. }
  unfold deduplicate_records in Hres.
  rewrite Hn, seq_app in Hres. cbn [seq] in Hres.
  rewrite Nat.add_0_l in Hres.
  assert (∀ i r j x, i < P → records !! i = Some r → P ≤ j →
                     records !! j = Some x → is_duplicate r x ≠ Ok true)
    as Hloner'.
  { intros i r j x Hi Hr Hj Hx. apply Hloner.
    - unfold records in Hr. rewrite lookup_app_l in Hr by done.
      by eapply list_elem_of_lookup_2.
    - unfold records in Hx. rewrite lookup_app_r in Hx by done.
      by eapply list_elem_of_lookup_2. }
  apply (dedup_loop_prefix records P Hloner' ltac:(lia) P 0 records ∅ [])
    in Hres; [|done|done|set_solver|done].
  destruct Hres as (cur' & merged' & out' & Hlen & Hm & Hcur & Hres).
  destruct (dedup_loop_base records P base_record _ _ _ _ _ HP Hlen Hm Hcur Hres)
    as [Hmarks Hfinal].
  rewrite Hdrop in Hmarks, Hfinal.
  destruct (fold_duplicate_fields best dup) as (H1 & H2 & H3 & H4 & H5).
  pose proof (duplicates_of_split base_record between dup later Hdup) as Hsplit.
  fold rest in Hsplit.
  split; [exact H1|]. split; [exact H2|]. split; [exact H3|].
  split; [exact H4|]. split; [exact H5|].
  split; [|split; [exact Hfinal|]].
  - apply Hmarks. rewrite Hsplit. apply marked_duplicates_elem.
  - intros f Hf Ht. unfold final, merged_base. rewrite Hsplit.
    assert (list_truthy (duplicates_of base_record between
                           ++ dup :: duplicates_of base_record later) = true)
      as -> by (by destruct (duplicates_of base_record between)).
    rewrite get_add_note by done.
    rewrite foldl_app. cbn [foldl].
    by apply foldl_merge_into_keeps.
Qed.

(** Oak Dental after an unrelated practice: the duplicate is in the
    output with its postcode, the base with the phone it lacked and with
    its own website. *)
Lemma deduplicate_records_fills_base_and_keeps_duplicate_witness :
  ∃ res dup' final,
    deduplicate_records [studio_practice; oak_dental READY; oak_dental_care]
    = Ok res
    ∧ dup' ∈ res ∧ final ∈ res
    ∧ status_of dup' = MERGED_DUPLICATE
    ∧ get F_postcode dup' = VStr "LS1 5HD"
    ∧ get F_phone final = VStr "+441132000000"
    ∧ get F_website final = VStr "https://oakdental.co.uk".
Proof.
  assert (∃ res, deduplicate_records
                   [studio_practice; oak_dental READY; oak_dental_care]
                 = Ok res) as [res Hres].
  { eexists. vm_compute. reflexivity. }
  destruct (deduplicate_records_fills_base_and_keeps_duplicate
              [studio_practice] [] [] res (oak_dental READY) oak_dental_care)
    as (Hfill & Hkeep & Hstatus & _ & Hdup & Hin & Hfinal & Hstay).
  - exact Hres.
  - intros r x Hr Hx. apply list_elem_of_singleton in Hr as ->.
    apply elem_of_cons in Hx as [-> | Hx];
      [|apply list_elem_of_singleton in Hx as ->];
      vm_compute; discriminate.
  - vm_compute. reflexivity.
  - exists res. eexists. eexists. split; [exact Hres|].
    split; [exact Hin|]. split; [exact Hfinal|]. split; [exact Hstatus|].
    split; [|split].
    + by rewrite Hdup.
    + rewrite Hstay; [|discriminate|by rewrite Hfill].
      by rewrite Hfill.
    + rewrite Hstay; [|discriminate|by rewrite Hkeep; [|left]].
      by rewrite Hkeep; [|left].
Defined.

(** The whole stage on the two records: the duplicate comes first in the
    output, then the base with the address, phone and services it lacked. *)
Example deduplicate_oak_dental :
  deduplicate_records [oak_dental READY; oak_dental_care]
  = Ok [ set_notes "Missing required fields: city. Merged into record: Oak Dental. "
           (set_status MERGED_DUPLICATE oak_dental_care);
         set_notes "Missing required fields: city. Merged 1 duplicate(s). "
           (set_services ["Implants"]
              (set_phone "+441132000000"
                 (set_address "1 Park Row" (oak_dental READY)))) ].
Proof. by vm_compute. Qed.

(** ** The matcher always produces its blocks *)

Module DifflibFacts.
Import Difflib DifflibInv.

Lemma scan_row_inv js i alo blo bhi j2len newj2len best :
  (alo ≤ i)%Z →
  row_ok alo blo bhi i j2len →
  row_ok alo blo bhi (i + 1) newj2len →
  within alo (i + 1) blo bhi best →
  row_ok alo blo bhi (i + 1) (scan_row js i blo bhi j2len newj2len best).1
  ∧ within alo (i + 1) blo bhi (scan_row js i blo bhi j2len newj2len best).2.
Proof.
  intros Hi Hold. revert newj2len best.
  induction js as [|j js IH]; intros newj2len best Hnew Hbest; simpl; [done|].
  destruct (j <? blo)%Z eqn:Hlo; [by apply IH|].
  destruct (bhi <=? j)%Z eqn:Hhi; [done|].
  apply Z.ltb_ge in Hlo. apply Z.leb_gt in Hhi.
  assert (1 ≤ default 0 (j2len !! (j - 1)) + 1
          ∧ default 0 (j2len !! (j - 1)) + 1 ≤ i + 1 - alo
          ∧ default 0 (j2len !! (j - 1)) + 1 ≤ j - blo + 1)%Z as Hk.
  { destruct (j2len !! (j - 1)%Z) as [k0|] eqn:Hk0; simpl; [|lia].
    apply Hold in Hk0. lia. }
  set (k := (default 0 (j2len !! (j - 1)) + 1)%Z) in *.
  apply IH.
  - intros j' k'. rewrite lookup_insert. case_decide as Hj.
    + intros [= <-]. subst j'. lia.
    + apply Hnew.
  - destruct (m_size best <? k)%Z; [|done].
    unfold within; simpl. lia.
Qed.

Lemma scan_rows_inv a b2j alo blo bhi (n : nat) :
  (blo ≤ bhi)%Z →
  let st := scan_rows a b2j alo (alo + Z.of_nat n) blo bhi in
  row_ok alo blo bhi (alo + Z.of_nat n) st.1
  ∧ within alo (alo + Z.of_nat n) blo bhi st.2.
Proof.
  intros Hb. unfold scan_rows.
  replace (alo + Z.of_nat n - alo)%Z with (Z.of_nat n) by lia.
  induction n as [|n IH].
  - simpl. split; [intros j k; by rewrite lookup_empty|].
    unfold within; simpl. lia.
  - rewrite seqZ_S, foldl_snoc.
    destruct (foldl _ _ (seqZ alo (Z.of_nat n))) as [j2len best].
    destruct IH as [Hrow Hbest]. simpl in Hrow, Hbest.
    replace (alo + Z.of_nat (S n))%Z with (alo + Z.of_nat n + 1)%Z by lia.
    apply scan_row_inv; [lia|done| |].
    + intros j k. by rewrite lookup_empty.
    + unfold within in *. lia.
Qed.

Lemma extend_left_inv rounds junk a b alo ahi blo bhi best :
  within alo ahi blo bhi best →
  within alo ahi blo bhi (extend_left rounds junk a b alo blo best).
Proof.
  revert best. induction rounds as [|rounds IH]; intros [i j k] Hw; [done|].
  simpl. destruct (_ && _) eqn:Hguard; [|done].
  apply IH. apply andb_prop in Hguard as [Hguard _].
  apply andb_prop in Hguard as [Hi Hj].
  apply Z.ltb_lt in Hi, Hj. unfold within in *; simpl in *. lia.
Qed.

Lemma extend_right_inv rounds junk a b alo ahi blo bhi best :
  within alo ahi blo bhi best →
  within alo ahi blo bhi (extend_right rounds junk a b ahi bhi best).
Proof.
  revert best. induction rounds as [|rounds IH]; intros [i j k] Hw; [done|].
  simpl. destruct (_ && _) eqn:Hguard; [|done].
  apply IH. apply andb_prop in Hguard as [Hguard _].
  apply andb_prop in Hguard as [Hi Hj].
  apply Z.ltb_lt in Hi, Hj. unfold within in *; simpl in *. lia.
Qed.

(** The block [find_longest_match] returns lies inside its window. *)
Lemma find_longest_match_within a b b2j alo ahi blo bhi :
  (alo ≤ ahi)%Z → (blo ≤ bhi)%Z →
  within alo ahi blo bhi (find_longest_match a b b2j alo ahi blo bhi).
Proof.
  intros Ha Hb. unfold find_longest_match.
  do 2 (apply extend_right_inv; apply extend_left_inv).
  pose proof (scan_rows_inv a b2j alo blo bhi (Z.to_nat (ahi - alo)) Hb) as H.
  replace (alo + Z.of_nat (Z.to_nat (ahi - alo)))%Z with ahi in H by lia.
  apply H.
Qed.

(** The queue loop ends within the rounds its windows weigh. *)
Lemma match_loop_total rounds a b b2j queue blocks :
  Forall window_ok queue →
  queue_weight queue ≤ rounds →
  is_Some (match_loop rounds a b b2j queue blocks).
Proof.
  revert queue blocks.
  induction rounds as [|rounds IH]; intros queue blocks Hok Hw.
  - destruct queue as [|[[[alo ahi] blo] bhi] queue]; simpl; [by eexists|].
    simpl in Hw. lia.
  - destruct queue as [|[[[alo ahi] blo] bhi] queue]; simpl; [by eexists|].
    apply Forall_cons in Hok as [[Ha Hb] Hok]. simpl in Hw.
    pose proof (find_longest_match_within a b b2j alo ahi blo bhi Ha Hb) as Hin.
    destruct (find_longest_match a b b2j alo ahi blo bhi) as [i j k].
    unfold within in Hin; simpl in Hin.
    case_bool_decide as Hk; [|apply IH; [done|lia]].
    apply IH.
    + repeat case_match; repeat (apply Forall_cons_2; [simpl; lia|]); done.
    + repeat case_match; simpl; lia.
Qed.

Lemma get_matching_blocks_total a b : is_Some (get_matching_blocks a b).
Proof.
  unfold get_matching_blocks.
  set (queue := [(0, Z.of_nat (length a), 0, Z.of_nat (length b))%Z]).
  assert (Forall window_ok queue) as Hok.
  { apply Forall_cons_2; [simpl; lia|done]. }
  assert (queue_weight queue ≤ loop_rounds a) as Hw.
  { unfold loop_rounds. simpl. lia. }
  destruct (match_loop_total (loop_rounds a) a b (chain_b b) queue [] Hok Hw)
    as [blocks Hblocks].
  rewrite Hblocks. by eexists.
Qed.

(** [ratio] returns a number for every pair of strings. *)
Lemma ratio_total (a b : string) : is_Some (ratio a b).
Proof.
  unfold ratio, matches.
  destruct (get_matching_blocks_total (String.list_ascii_of_string a)
              (String.list_ascii_of_string b)) as [blocks Hblocks].
  rewrite Hblocks. by eexists.
Qed.

End DifflibFacts.

(** ** Deduplicator: the name criterion *)

(** C3, as the claim states it, fails: "Studio Practice" and "Studio
    Private" share the postcode prefix "LS1 "; the matcher finds 12 matching
    characters out of 29 one way round (ratio 24/29, above 0.8) and 11 the
    other way round (ratio 22/29, below 0.8). *)
Lemma name_postcode_match_not_symmetric :
  name studio_practice ≠ "" ∧ name studio_private ≠ ""
  ∧ Difflib.ratio "studio practice" "studio private"
    = Some (QArith_base.Qmake 24 29)
  ∧ Difflib.ratio "studio private" "studio practice"
    = Some (QArith_base.Qmake 22 29)
  ∧ name_postcode_match studio_practice studio_private = true
  ∧ name_postcode_match studio_private studio_practice = false.
Proof. repeat split; (discriminate || by vm_compute). Qed.

(** C3, amended.  The name criterion gives the same answer for A against B
    and for B against A whenever the matcher puts the similarity of the two
    lower-cased names on the same side of 0.8 in both argument orders; the
    postcode condition itself does not depend on the order. *)
Theorem name_postcode_match_symmetric_when_ratio_agrees (A B : listing) :
  similar_enough <$> Difflib.ratio (PyStr.lower (name A)) (PyStr.lower (name B))
  = similar_enough <$> Difflib.ratio (PyStr.lower (name B)) (PyStr.lower (name A)) →
  name_postcode_match A B = name_postcode_match B A.
Proof.
  intros Hsim. unfold name_postcode_match.
  rewrite (andb_comm (PyStr.truthy (name B))).
  destruct (PyStr.truthy (name A) && PyStr.truthy (name B)); [|done].
  destruct (DifflibFacts.ratio_total (PyStr.lower (name A)) (PyStr.lower (name B)))
    as [x Hx].
  destruct (DifflibFacts.ratio_total (PyStr.lower (name B)) (PyStr.lower (name A)))
    as [y Hy].
  rewrite Hx, Hy in *. simpl in Hsim. injection Hsim as ->.
  destruct (decide (PyStr.slice_to (postcode A) 4 = PyStr.slice_to (postcode B) 4))
    as [Heq|Hne].
  - rewrite Heq. by rewrite !bool_decide_eq_true_2.
  - rewrite !bool_decide_eq_false_2 by done. by rewrite !andb_false_r.
Qed.

(** "Studio Private" and "Studio Privat" match in both orders. *)
Lemma name_postcode_match_symmetric_when_ratio_agrees_witness :
  name_postcode_match studio_private studio_privat = true
  ∧ name_postcode_match studio_privat studio_private = true.
Proof.
  assert (name_postcode_match studio_private studio_privat
          = name_postcode_match studio_privat studio_private) as Hsym.
  { apply name_postcode_match_symmetric_when_ratio_agrees.
    vm_compute. reflexivity. }
  split; [|rewrite <- Hsym]; vm_compute; reflexivity.
Defined.

(** * Further properties of the pipeline *)

(** ** More facts about the string primitives *)

Module PyStrMore.
Import PyStr.

Lemma rstrip_with_idem p s : rstrip_with p (rstrip_with p s) = rstrip_with p s.
Proof.
  induction s as [|c s IH]; simpl; [done|].
  destruct (rstrip_with p s) as [|d t] eqn:Ht.
  - destruct (p c) eqn:Hc; simpl; [done|]. by rewrite Hc.
  - change (rstrip_with p (String c (String d t))) with
      (match rstrip_with p (String d t) with
       | EmptyString => if p c then EmptyString else String c EmptyString
       | u => String c u
       end).
    by rewrite IH.
Qed.

Lemma lstrip_with_head p s : head_kept p (lstrip_with p s).
Proof.
  induction s as [|c s IH]; simpl; [done|].
  destruct (p c) eqn:Hc; [done|]. by simpl.
Qed.

Lemma lstrip_with_id p s : head_kept p s → lstrip_with p s = s.
Proof. destruct s as [|c s]; simpl; [done|]. by intros ->. Qed.

Lemma rstrip_with_head p s : head_kept p s → head_kept p (rstrip_with p s).
Proof.
  destruct s as [|c s]; simpl; [done|]. intros Hc.
  destruct (rstrip_with p s); [by rewrite Hc|done].
Qed.

(** [s.strip().strip() == s.strip()] *)
Lemma strip_idem s : strip (strip s) = strip s.
Proof.
  unfold strip.
  rewrite (lstrip_with_id _ (rstrip_with _ _)).
  - apply rstrip_with_idem.
  - apply rstrip_with_head, lstrip_with_head.
Qed.

Lemma lower_char_not_upper c : is_upper_char (lower_char c) = false.
Proof.
  unfold lower_char. destruct (is_upper_char c) eqn:Hc; [|done].
  unfold is_upper_char, code in *.
  apply andb_prop in Hc as [H1 H2]. apply Nat.leb_le in H1, H2.
  rewrite nat_ascii_embedding by lia.
  apply andb_false_intro2. apply Nat.leb_gt. lia.
Qed.

(** [s.lower()] has no upper-case letter. *)
Lemma lower_no_upper s : any_char is_upper_char (lower s) = false.
Proof.
  induction s as [|c s IH]; simpl; [done|].
  fold (lower s). by rewrite lower_char_not_upper, IH.
Qed.

Lemma upper_char_not_lower c : is_lower_char (upper_char c) = false.
Proof.
  unfold upper_char. destruct (is_lower_char c) eqn:Hc; [|done].
  unfold is_lower_char, code in *.
  apply andb_prop in Hc as [H1 H2]. apply Nat.leb_le in H1, H2.
  rewrite nat_ascii_embedding by lia.
  apply andb_false_intro1. apply Nat.leb_gt. lia.
Qed.

(** [s.upper()] has no lower-case letter. *)
Lemma upper_no_lower s : any_char is_lower_char (upper s) = false.
Proof.
  induction s as [|c s IH]; simpl; [done|].
  fold (upper s). by rewrite upper_char_not_lower, IH.
Qed.

End PyStrMore.

(** ** Loader *)

Lemma replace_blank_no_blank s :
  PyStr.has_char " " (replace_char " " "_" s) = false.
Proof.
  unfold replace_char, PyStr.has_char.
  induction s as [|c s IH]; simpl; [done|]. rewrite IH, orb_false_r.
  destruct (decide (c = " "%char)) as [->|Hc]; [done|].
  rewrite (bool_decide_eq_false_2 (c = " "%char)) by done.
  by apply bool_decide_eq_false_2.
Qed.

Lemma replace_blank_no_upper s :
  PyStr.any_char PyStr.is_upper_char s = false →
  PyStr.any_char PyStr.is_upper_char (replace_char " " "_" s) = false.
Proof.
  unfold replace_char.
  induction s as [|c s IH]; simpl; [done|].
  intros H. apply orb_false_elim in H as [Hc Hs]. rewrite (IH Hs).
  case_bool_decide; [done|]. by rewrite Hc.
Qed.

Lemma normalized_key_of_header key :
  normalized_key (replace_char " " "_" (PyStr.lower key)).
Proof.
  split; [|apply replace_blank_no_blank].
  apply replace_blank_no_upper, PyStrMore.lower_no_upper.
Qed.

Lemma normalize_row_fold row acc m :
  (∀ m0, acc = Ok m0 → row_normalized m0) →
  foldl (λ acc '(key, value),
           normalized_row ← acc;
           match key with
           | None => Raise AttributeError
           | Some key =>
               let normalized_key := replace_char " " "_" (PyStr.lower key) in
               let cell :=
                 match value with
                 | Some v => if PyStr.truthy v then PyStr.strip v else ""
                 | None => ""
                 end in
               mret (<[normalized_key := cell]> (normalized_row : raw_row))
           end) acc row = Ok m →
  row_normalized m.
Proof.
  revert acc. induction row as [|[key value] row IH]; intros acc Hacc; simpl.
  - intros ->. by apply Hacc.
  - apply IH. intros m0. destruct acc as [m1|e]; [|done].
    destruct key as [key|]; [|done].
    unfold mbind, result_bind, mret, result_ret. intros [= <-].
    intros k v. rewrite lookup_insert. case_decide as Hk.
    + intros [= <-]. subst k. split; [apply normalized_key_of_header|].
      destruct value as [v|]; [|done].
      destruct (PyStr.truthy v); [apply PyStrMore.strip_idem|done].
    + by apply Hacc.
Qed.

Lemma normalize_row_normalized row m :
  normalize_row row = Ok m → row_normalized m.
Proof.
  apply normalize_row_fold. intros m0 [= <-] k v. by rewrite lookup_empty.
Qed.

Lemma load_rows_normalized reader records :
  Forall row_normalized records →
  Forall row_normalized (load_rows reader records).1.
Proof.
  revert records. induction reader as [|[row|e] reader IH]; intros records Hr;
    simpl; [done| |done].
  destruct (normalize_row row) as [m|e] eqn:Hm; [|done].
  apply IH. apply Forall_app. split; [done|].
  apply Forall_singleton. by eapply normalize_row_normalized.
Qed.

(** [load_csv] never raises, whatever the file does; in every row it
    returns, the column names have no upper-case letter and no blank, and
    the cells have no blank at either end. *)
Theorem load_csv_returns_normalized_rows (E : env) (file_path : string) :
  ∃ records,
    load_csv E file_path = Ok records
    ∧ ∀ row key v, row ∈ records → row !! key = Some v →
        PyStr.any_char PyStr.is_upper_char key = false
        ∧ PyStr.has_char " " key = false
        ∧ PyStr.strip v = v.
Proof.
  unfold load_csv. destruct (open_csv E file_path) as [reader|e].
  - eexists. split; [reflexivity|].
    intros row key v Hin Hkv.
    pose proof (load_rows_normalized reader [] (Forall_nil_2 _)) as Hall.
    rewrite Forall_forall in Hall.
    destruct (Hall row Hin key v Hkv) as [[H1 H2] H3]. done.
  - exists []. split; [reflexivity|]. intros row key v Hin.
    by apply elem_of_nil in Hin.
Qed.

Lemma load_rows_good_prefix good tail records rows :
  mapM normalize_row good = Ok rows →
  load_rows ((Ok <$> good) ++ tail) records = load_rows tail (records ++ rows).
Proof.
  revert records rows. induction good as [|row good IH]; intros records rows.
  - intros [= <-]. by rewrite app_nil_r.
  - simpl. unfold mbind, result_bind, mret, result_ret.
    destruct (normalize_row row) as [m|e]; [|done].
    destruct (mapM normalize_row good) as [ms|e] eqn:Hms; [|done].
    intros [= <-]. rewrite (IH _ ms eq_refl). by rewrite <- app_assoc.
Qed.

Lemma normalize_row_fold_raised row e :
  foldl (λ acc '(key, value),
           normalized_row ← acc;
           match key with
           | None => Raise AttributeError
           | Some key =>
               let normalized_key := replace_char " " "_" (PyStr.lower key) in
               let cell :=
                 match value with
                 | Some v => if PyStr.truthy v then PyStr.strip v else ""
                 | None => ""
                 end in
               mret (<[normalized_key := cell]> (normalized_row : raw_row))
           end) (Raise e) row = Raise e.
Proof. induction row as [|[key value] row IH]; simpl; [done|apply IH]. Qed.

(** A row with a surplus cell makes [key.lower()] raise. *)
Lemma normalize_row_surplus row :
  None ∈ row.*1 → normalize_row row = Raise AttributeError.
Proof.
  unfold normalize_row. generalize (∅ : raw_row).
  induction row as [|[key value] row IH]; intros m Hin; simpl in *.
  - by apply elem_of_nil in Hin.
  - destruct key as [key|].
    + apply IH. apply elem_of_cons in Hin as [Hin|Hin]; [done|exact Hin].
    + apply normalize_row_fold_raised.
Qed.

(** An error in the middle of the file ends the loading without any
    exception: when the reader raises at some row, or yields a row with
    more cells than the header, the rows before it are returned and the
    rows after it are dropped. *)
Theorem load_csv_stops_at_first_bad_row (E : env) (file_path : string)
    (good : list csv_row) (bad : result csv_row) (rest : list (result csv_row))
    (rows : list raw_row) :
  open_csv E file_path = Ok ((Ok <$> good) ++ bad :: rest) →
  mapM normalize_row good = Ok rows →
  (∃ e, bad = Raise e) ∨ (∃ row, bad = Ok row ∧ None ∈ row.*1) →
  load_csv E file_path = Ok rows.
Proof.
  intros Hopen Hgood Hbad. unfold load_csv. rewrite Hopen.
  rewrite (load_rows_good_prefix _ _ _ _ Hgood). simpl.
  destruct Hbad as [[e ->] | (row & -> & Hnone)]; simpl; [done|].
  by rewrite (normalize_row_surplus _ Hnone).
Qed.

(** Of the four rows of the ragged file, the two before the ragged one are
    loaded. *)
Lemma load_csv_stops_at_first_bad_row_witness :
  load_csv ragged_file_env "input/clinics_sample.csv"
  = Ok [ {[ "name" := "Oak Dental"; "phone_number" := "" ]};
         {[ "name" := "Elm Physio"; "phone_number" := "0113" ]} ].
Proof.
  refine (load_csv_stops_at_first_bad_row ragged_file_env _
            [ [(Some "Name", Some " Oak Dental "); (Some "Phone Number", None)];
              [(Some "Name", Some "Elm Physio"); (Some "Phone Number", Some "0113")] ]
            (Ok [(Some "Name", Some "Ash GP"); (Some "Phone Number", Some "0114");
                 (None, Some "surplus")])
            [Ok [(Some "Name", Some "Yew Clinic"); (Some "Phone Number", Some "0115")]]
            _ _ _ _).
  - reflexivity.
  - vm_compute. reflexivity.
  - right. eexists. split; [reflexivity|]. vm_compute.
    apply list_elem_of_further, list_elem_of_further, list_elem_of_here.
Defined.

(** ** Normalizer: which keys each step writes *)

Lemma clean_name_frame raw c f :
  f ≠ F_name → get f (clean_name raw c) = get f c.
Proof.
  intros Hf. unfold clean_name. destruct (present raw "name"); [|done].
  destruct c, f; done.
Qed.

Lemma clean_category_frame raw c f :
  f ≠ F_category → f ≠ F_notes → get f (clean_category raw c) = get f c.
Proof.
  intros Hf Hn. unfold clean_category.
  destruct (present raw "category"); [|done].
  repeat case_match; destruct c, f; done.
Qed.

Lemma clean_city_frame raw c f :
  f ≠ F_city → get f (clean_city raw c) = get f c.
Proof.
  intros Hf. unfold clean_city. destruct (present raw "city"); [|done].
  destruct c, f; done.
Qed.

Lemma clean_phone_frame raw c f :
  f ≠ F_phone → f ≠ F_notes → get f (clean_phone raw c) = get f c.
Proof.
  intros Hf Hn. unfold clean_phone. destruct (present raw "phone"); [|done].
  repeat case_match; destruct c, f; done.
Qed.

Lemma clean_website_frame raw c c' f :
  clean_website raw c = Ok c' →
  f ≠ F_website → f ≠ F_notes → f ≠ F_status → get f c' = get f c.
Proof.
  unfold clean_website. unfold mret, mbind, result_ret, result_bind.
  destruct (present raw "website"); [|by intros [= <-]].
  destruct (UrlParse.netloc _); [|done].
  intros [= <-] Hw Hn Hs. repeat case_match; destruct c, f; done.
Qed.

Lemma clean_services_frame raw c f :
  f ≠ F_services → get f (clean_services raw c) = get f c.
Proof.
  intros Hf. unfold clean_services. destruct (present raw "services"); [|done].
  destruct c, f; done.
Qed.

Lemma copy_other_fields_frame raw c f :
  f ≠ F_bookingLink → f ≠ F_logoUrl → get f (copy_other_fields raw c) = get f c.
Proof.
  intros Hb Hl. unfold copy_other_fields.
  destruct (present raw "bookinglink"), (present raw "logourl");
    destruct c, f; done.
Qed.

Lemma set_address_frame v c f : f ≠ F_address → get f (set_address v c) = get f c.
Proof. intros Hf. destruct c, f; done. Qed.

Lemma set_postcode_frame v c f : f ≠ F_postcode → get f (set_postcode v c) = get f c.
Proof. intros Hf. destruct c, f; done. Qed.

(** The record on which [clean_record] runs the website step, and the one
    it returns *)
Lemma clean_record_steps raw r :
  clean_record raw = Ok r →
  ∃ c1 c2,
    c1 = clean_phone raw
           (set_postcode (PyStr.upper (PyStr.strip (get_or_empty raw "postcode")))
              (set_address (PyStr.strip (get_or_empty raw "address"))
                 (clean_city raw
                    (clean_category raw (clean_name raw cleaned_default)))))
    ∧ clean_website raw c1 = Ok c2
    ∧ r = copy_other_fields raw (clean_services raw c2).
Proof.
  unfold clean_record. unfold mret, mbind, result_ret, result_bind.
  destruct (clean_website raw _) as [c2|e] eqn:Hweb; [|done].
  intros [= <-]. eauto.
Qed.

(** ** Normalizer: website and status *)

Lemma status_before_website raw :
  status_of
    (clean_phone raw
       (set_postcode (PyStr.upper (PyStr.strip (get_or_empty raw "postcode")))
          (set_address (PyStr.strip (get_or_empty raw "address"))
             (clean_city raw
                (clean_category raw (clean_name raw cleaned_default))))))
  = READY.
Proof.
  assert (∀ c, get F_status c = VStatus READY → status_of c = READY) as Hget.
  { intros c [= ->]. done. }
  apply Hget.
  rewrite clean_phone_frame, set_postcode_frame, set_address_frame,
    clean_city_frame, clean_category_frame, clean_name_frame by done.
  done.
Qed.

Lemma prefix_scheme_added w :
  PyStr.startswith "https://" ("https://" +:+ w) = true.
Proof. unfold PyStr.startswith. simpl. by destruct w. Qed.

(** What [clean_record] does with the website.  Without a website cell
    the website stays empty and the status is READY.  With one, the cleaned
    website starts with [http://] or [https://], and the status is READY
    when the host that [urlparse] finds in it is non-empty and has a dot,
    NEEDS_REVIEW otherwise; these are the only two statuses the normalizer
    gives. *)
Theorem clean_record_website_and_status (raw : raw_row) (r : listing) :
  clean_record raw = Ok r →
  (raw !! "website" = None ∨ raw !! "website" = Some "" →
   website r = "" ∧ status_of r = READY)
  ∧ (∀ v, raw !! "website" = Some v → v ≠ "" →
       (PyStr.startswith "http://" (website r)
        || PyStr.startswith "https://" (website r)) = true
       ∧ ∃ host, UrlParse.netloc (website r) = Ok host
                 ∧ status_of r
                   = if PyStr.truthy host && PyStr.has_char "." host
                     then READY else NEEDS_REVIEW)
  ∧ (status_of r = READY ∨ status_of r = NEEDS_REVIEW).
Proof.
  intros Hr. destruct (clean_record_steps _ _ Hr) as (c1 & c2 & Hc1 & Hweb & ->).
  pose proof (status_before_website raw) as Hready. rewrite <- Hc1 in Hready.
  assert (website (copy_other_fields raw (clean_services raw c2)) = website c2
          ∧ status_of (copy_other_fields raw (clean_services raw c2))
            = status_of c2) as [-> ->].
  { pose proof (copy_other_fields_frame raw (clean_services raw c2) F_website)
      as H1.
    pose proof (copy_other_fields_frame raw (clean_services raw c2) F_status)
      as H2.
    rewrite clean_services_frame in H1, H2 by done.
    split; [injection (H1 ltac:(done) ltac:(done)) as ->
           |injection (H2 ltac:(done) ltac:(done)) as ->]; done. }
  assert (website c1 = "") as Hw1.
  { assert (get F_website c1 = VStr "") as [= ->]; [|done].
    rewrite Hc1.
    rewrite clean_phone_frame, set_postcode_frame, set_address_frame,
      clean_city_frame, clean_category_frame, clean_name_frame by done.
    done. }
  clear Hc1 Hr. revert Hweb. unfold clean_website, present.
  unfold mret, mbind, result_ret, result_bind.
  destruct (raw !! "website") as [v|] eqn:Hv.
  - destruct (PyStr.truthy v) eqn:Htr.
    + destruct (UrlParse.netloc _) as [host|e] eqn:Hhost; [|done].
      intros [= <-].
      set (w := if negb _ then _ else _) in *.
      assert (website (set_website w
                (if negb (PyStr.truthy host) || negb (PyStr.has_char "." host)
                 then set_status NEEDS_REVIEW
                        (add_note "Website URL appears invalid. " c1)
                 else c1)) = w) as Hw by (case_match; by destruct c1).
      assert (status_of (set_website w
                (if negb (PyStr.truthy host) || negb (PyStr.has_char "." host)
                 then set_status NEEDS_REVIEW
                        (add_note "Website URL appears invalid. " c1)
                 else c1))
              = if PyStr.truthy host && PyStr.has_char "." host
                then READY else NEEDS_REVIEW) as Hs.
      { destruct (PyStr.truthy host), (PyStr.has_char "." host); simpl;
          destruct c1; simpl in *; done. }
      rewrite Hw, Hs. split; [|split].
      * intros [[=] | [= ->]]. done.
      * intros v' [= <-] _. split; [|by exists host].
        subst w. destruct (PyStr.startswith "http://" (PyStr.strip v)
                           || PyStr.startswith "https://" (PyStr.strip v))
          eqn:Hsw; cbn [negb]; [exact Hsw|].
        rewrite prefix_scheme_added. apply orb_true_r.
      * destruct (PyStr.truthy host && PyStr.has_char "." host); auto.
    + intros [= <-]. apply PyStrFacts.truthy_false in Htr as ->.
      split; [done|]. split; [|auto]. by intros v' [= <-].
  - intros [= <-]. split; [done|]. split; [done|auto].
Qed.

(** The ABC CLINIC row: the scheme is added and the host has a dot. *)
Lemma clean_record_website_and_status_witness :
  ∃ r, clean_record abc_clinic_row = Ok r
       ∧ PyStr.startswith "https://" (website r) = true
       ∧ status_of r = READY.
Proof.
  assert (∃ r, clean_record abc_clinic_row = Ok r) as [r Hr].
  { eexists. vm_compute. reflexivity. }
  exists r. split; [exact Hr|].
  destruct (clean_record_website_and_status _ _ Hr) as (_ & Hsome & _).
  destruct (Hsome "abcclinic.co.uk") as (Hsw & host & Hhost & Hs).
  - vm_compute. reflexivity.
  - discriminate.
  - revert Hr. vm_compute. intros [= <-]. split; reflexivity.
Defined.

(** ** Normalizer: phone numbers *)

Lemma filter_chars_all p s : UrlParse.all_chars p (PyStr.filter_chars p s) = true.
Proof.
  induction s as [|c s IH]; simpl; [done|].
  destruct (p c) eqn:Hc; simpl; [by rewrite Hc|done].
Qed.

Lemma filter_chars_id p s :
  UrlParse.all_chars p s = true → PyStr.filter_chars p s = s.
Proof.
  induction s as [|c s IH]; simpl; [done|].
  intros H. apply andb_prop in H as [-> Hs]. by rewrite IH.
Qed.

Lemma all_chars_drop p n s :
  UrlParse.all_chars p s = true → UrlParse.all_chars p (PyStr.drop n s) = true.
Proof.
  revert s. induction n as [|n IH]; intros [|c s]; simpl; try done.
  intros H. apply andb_prop in H as [_ Hs]. by apply IH.
Qed.

Lemma prefix_split p s :
  String.prefix p s = true → s = p +:+ PyStr.drop (String.length p) s.
Proof.
  revert s. induction p as [|c p IH]; intros s; simpl.
  - by destruct s.
  - destruct s as [|d s]; [done|].
    intros H. simpl in H.
    destruct (Ascii.ascii_dec c d) as [->|]; [|done].
    change (String d s = String d (p +:+ PyStr.drop (String.length p) s)).
    f_equal. by apply IH.
Qed.

Lemma clean_phone_phone raw c c' :
  phone (clean_phone raw c) = phone (clean_phone raw c') ∨ present raw "phone" = None.
Proof.
  unfold clean_phone. destruct (present raw "phone"); [|by right].
  left. repeat case_match; destruct c, c'; done.
Qed.

Lemma clean_record_phone_step raw r :
  clean_record raw = Ok r →
  phone r = phone (clean_phone raw cleaned_default).
Proof.
  intros Hr. destruct (clean_record_steps _ _ Hr) as (c1 & c2 & Hc1 & Hweb & ->).
  assert (get F_phone (copy_other_fields raw (clean_services raw c2))
          = get F_phone c1) as [= ->].
  { rewrite copy_other_fields_frame, clean_services_frame by done.
    by apply (clean_website_frame raw c1 c2). }
  rewrite Hc1.
  destruct (clean_phone_phone raw
              (set_postcode (PyStr.upper (PyStr.strip (get_or_empty raw "postcode")))
                 (set_address (PyStr.strip (get_or_empty raw "address"))
                    (clean_city raw
                       (clean_category raw (clean_name raw cleaned_default)))))
              cleaned_default) as [Heq|Hnone]; [exact Heq|].
  unfold clean_phone. rewrite Hnone.
  assert (∀ c, get F_phone c = VStr "" → phone c = "") as Hget
    by (intros c [= ->]; done).
  apply Hget.
  rewrite set_postcode_frame, set_address_frame, clean_city_frame,
    clean_category_frame, clean_name_frame by done.
  done.
Qed.

Lemma digits_no_plus v : PyStr.startswith "+44" (PyStr.digits_only v) = false.
Proof.
  unfold PyStr.startswith, PyStr.digits_only.
  pose proof (filter_chars_all PyStr.is_digit v) as Hall.
  destruct (PyStr.filter_chars PyStr.is_digit v) as [|c s]; [reflexivity|].
  change (String.prefix "+44" (String c s))
    with (if Ascii.ascii_dec "+" c then String.prefix "44" s else false).
  destruct (Ascii.ascii_dec "+" c) as [<-|]; [|reflexivity].
  simpl in Hall. discriminate Hall.
Qed.

Lemma digits_only_plus44 d :
  UrlParse.all_chars PyStr.is_digit d = true →
  PyStr.digits_only ("+44" +:+ d) = "44" +:+ d.
Proof.
  intros Hd.
  change (PyStr.digits_only ("+44" +:+ d))
    with (String "4" (String "4" (PyStr.filter_chars PyStr.is_digit d))).
  by rewrite filter_chars_id.
Qed.

Lemma digits_only_plus d :
  UrlParse.all_chars PyStr.is_digit d = true →
  PyStr.digits_only ("+" +:+ d) = d.
Proof.
  intros Hd.
  change (PyStr.digits_only ("+" +:+ d))
    with (PyStr.filter_chars PyStr.is_digit d).
  by apply filter_chars_id.
Qed.

(** The phone that [clean_phone] stores for a non-empty cell [v] *)
Lemma clean_phone_value raw v :
  present raw "phone" = Some v →
  phone (clean_phone raw cleaned_default)
  = let digits := PyStr.digits_only v in
    if PyStr.startswith "0" digits then "+44" +:+ PyStr.drop 1 digits
    else if PyStr.startswith "44" digits then "+" +:+ digits
    else v.
Proof.
  intros Hv. unfold clean_phone. rewrite Hv. cbv zeta.
  destruct (PyStr.startswith "0" _); [done|].
  destruct (PyStr.startswith "44" _); [done|].
  by rewrite digits_no_plus.
Qed.

Lemma present_some raw key v :
  raw !! key = Some v → v ≠ "" → present raw key = Some v.
Proof. intros Hv Hne. unfold present. rewrite Hv. by destruct v. Qed.

Lemma present_none raw key :
  raw !! key = None ∨ raw !! key = Some "" → present raw key = None.
Proof. unfold present. by intros [-> | ->]. Qed.

(** The cleaned phone is either the cell as it was given, or [+44]
    followed by digits only; it is empty when there is no phone cell. *)
Theorem clean_record_phone_form (raw : raw_row) (r : listing) :
  clean_record raw = Ok r →
  (raw !! "phone" = None ∨ raw !! "phone" = Some "" → phone r = "")
  ∧ (∀ v, raw !! "phone" = Some v → v ≠ "" →
       phone r = v
       ∨ ∃ d, phone r = "+44" +:+ d
              ∧ UrlParse.all_chars PyStr.is_digit d = true).
Proof.
  intros Hr. rewrite (clean_record_phone_step _ _ Hr). split.
  - intros Habs. unfold clean_phone. by rewrite (present_none _ _ Habs).
  - intros v Hv Hne.
    rewrite (clean_phone_value raw v (present_some _ _ _ Hv Hne)). cbv zeta.
    pose proof (filter_chars_all PyStr.is_digit v) as Hall.
    fold (PyStr.digits_only v) in Hall.
    destruct (PyStr.startswith "0" _) eqn:H0.
    { right. eexists. split; [done|]. by apply all_chars_drop. }
    destruct (PyStr.startswith "44" _) eqn:H44; [|by left].
    right. exists (PyStr.drop 2 (PyStr.digits_only v)).
    split; [|by apply all_chars_drop].
    rewrite (prefix_split _ _ H44) at 1. done.
Qed.

(** The national number of the ABC CLINIC row becomes an international
    one. *)
Lemma clean_record_phone_form_witness :
  ∃ r d, clean_record abc_clinic_row = Ok r
         ∧ (phone r = "07123456789" ∨ phone r = "+44" +:+ d).
Proof.
  assert (∃ r, clean_record abc_clinic_row = Ok r) as [r Hr].
  { eexists. vm_compute. reflexivity. }
  destruct (clean_record_phone_form _ _ Hr) as [_ Hform].
  destruct (Hform "07123456789") as [Hkept | (d & Hd & _)].
  - vm_compute. reflexivity.
  - discriminate.
  - exists r, "". split; [exact Hr|]. left. exact Hkept.
  - exists r, d. split; [exact Hr|]. right. exact Hd.
Defined.

(** Cleaning is stable on phones: a row whose phone cell already holds a
    cleaned phone is cleaned to the same phone. *)
Theorem clean_record_phone_idempotent (raw raw' : raw_row) (r r' : listing) :
  clean_record raw = Ok r →
  raw' !! "phone" = Some (phone r) →
  clean_record raw' = Ok r' →
  phone r' = phone r.
Proof.
  intros Hr Hphone Hr'.
  rewrite (clean_record_phone_step _ _ Hr') .
  destruct (decide (phone r = "")) as [Hempty|Hne].
  { unfold clean_phone. rewrite (present_none raw' "phone"); [done|].
    right. by rewrite Hphone, Hempty. }
  rewrite (clean_phone_value raw' _ (present_some _ _ _ Hphone Hne)). cbv zeta.
  revert Hne. rewrite (clean_record_phone_step _ _ Hr).
  unfold clean_phone at 1 2 3 4 5 6 7.
  destruct (present raw "phone") as [v|] eqn:Hv; [|done]. intros _.
  assert (phone
            (if PyStr.startswith "0" (PyStr.digits_only v)
             then set_phone ("+44" +:+ PyStr.drop 1 (PyStr.digits_only v))
                    cleaned_default
             else if PyStr.startswith "44" (PyStr.digits_only v)
                  then set_phone ("+" +:+ PyStr.digits_only v) cleaned_default
                  else if negb (PyStr.startswith "+44" (PyStr.digits_only v))
                       then set_phone v
                              (add_note "Phone format unclear. " cleaned_default)
                       else set_phone (PyStr.digits_only v) cleaned_default)
          = if PyStr.startswith "0" (PyStr.digits_only v)
            then "+44" +:+ PyStr.drop 1 (PyStr.digits_only v)
            else if PyStr.startswith "44" (PyStr.digits_only v)
                 then "+" +:+ PyStr.digits_only v
                 else v) as ->.
  { rewrite digits_no_plus. repeat case_match; done. }
  pose proof (filter_chars_all PyStr.is_digit v) as Hall.
  fold (PyStr.digits_only v) in Hall.
  destruct (PyStr.startswith "0" (PyStr.digits_only v)) eqn:H0.
  - rewrite digits_only_plus44 by (by apply all_chars_drop).
    generalize (PyStr.drop 1 (PyStr.digits_only v)). by intros [|c d].
  - destruct (PyStr.startswith "44" (PyStr.digits_only v)) eqn:H44.
    + rewrite digits_only_plus by done. by rewrite H0, H44.
    + by rewrite H0, H44.
Qed.

(** The cleaned ABC CLINIC row, cleaned again *)
Lemma clean_record_phone_idempotent_witness :
  ∃ r', clean_record (<["phone" := "+447123456789"]> abc_clinic_row) = Ok r'
        ∧ phone r' = "+447123456789".
Proof.
  assert (∃ r, clean_record abc_clinic_row = Ok r ∧ phone r = "+447123456789")
    as (r & Hr & Hp).
  { eexists. split; vm_compute; reflexivity. }
  assert (∃ r', clean_record (<["phone" := "+447123456789"]> abc_clinic_row)
               = Ok r') as [r' Hr'].
  { eexists. vm_compute. reflexivity. }
  exists r'. split; [exact Hr'|]. rewrite <- Hp.
  apply (clean_record_phone_idempotent abc_clinic_row
           (<["phone" := "+447123456789"]> abc_clinic_row) r r' Hr); [|exact Hr'].
  rewrite Hp. vm_compute. reflexivity.
Defined.

(** ** Normalizer: services, address and postcode *)

Lemma any_char_weaken (p q : ascii → bool) s :
  (∀ c, q c = true → p c = true) →
  PyStr.any_char p s = false → PyStr.any_char q s = false.
Proof.
  intros Hpq. induction s as [|c s IH]; simpl; [done|].
  intros H. apply orb_false_elim in H as [Hc Hs]. rewrite (IH Hs).
  destruct (q c) eqn:Hq; [|done]. by rewrite (Hpq c Hq) in Hc.
Qed.

Lemma any_char_lstrip q p s :
  PyStr.any_char q s = false → PyStr.any_char q (PyStr.lstrip_with p s) = false.
Proof.
  induction s as [|c s IH]; simpl; [done|].
  intros H. destruct (p c); [|exact H].
  apply orb_false_elim in H as [_ Hs]. by apply IH.
Qed.

Lemma any_char_rstrip q p s :
  PyStr.any_char q s = false → PyStr.any_char q (PyStr.rstrip_with p s) = false.
Proof.
  induction s as [|c s IH]; simpl; [done|].
  intros H. apply orb_false_elim in H as [Hc Hs]. specialize (IH Hs).
  destruct (PyStr.rstrip_with p s) as [|d t].
  - destruct (p c); simpl; [done|]. by rewrite Hc.
  - change (PyStr.any_char q (String c (String d t)))
      with (q c || PyStr.any_char q (String d t)).
    by rewrite Hc, IH.
Qed.

Lemma any_char_strip q s :
  PyStr.any_char q s = false → PyStr.any_char q (PyStr.strip s) = false.
Proof. intros H. unfold PyStr.strip. by apply any_char_rstrip, any_char_lstrip. Qed.

(** No piece of [re.split] holds a separator. *)
Lemma split_on_no_sep p s :
  Forall (λ piece, PyStr.any_char p piece = false) (PyStr.split_on p s).
Proof.
  induction s as [|c s IH]; simpl.
  - by apply Forall_singleton.
  - destruct (p c) eqn:Hc; [by apply Forall_cons_2|].
    destruct (PyStr.split_on p s) as [|piece pieces].
    + apply Forall_singleton. simpl. by rewrite Hc.
    + apply Forall_cons in IH as [Hpiece Hpieces].
      apply Forall_cons_2; [|done]. simpl. by rewrite Hc, Hpiece.
Qed.

Lemma clean_record_services_step raw r :
  clean_record raw = Ok r →
  services r = services (clean_services raw cleaned_default).
Proof.
  intros Hr. destruct (clean_record_steps _ _ Hr) as (c1 & c2 & Hc1 & Hweb & ->).
  assert (get F_services (copy_other_fields raw (clean_services raw c2))
          = get F_services (clean_services raw c2)) as [= ->]
    by (by rewrite copy_other_fields_frame).
  unfold clean_services. destruct (present raw "services").
  { by destruct c2. }
  assert (get F_services c2 = VList []) as [= ->]; [|done].
  rewrite (clean_website_frame raw c1 c2 F_services Hweb) by done.
  rewrite Hc1.
  rewrite clean_phone_frame, set_postcode_frame, set_address_frame,
    clean_city_frame, clean_category_frame, clean_name_frame by done.
  done.
Qed.

(** Every service of a cleaned record is non-empty, has no blank at either
    end, and holds neither [;] nor [,]. *)
Theorem clean_record_services_clean (raw : raw_row) (r : listing) (s : string) :
  clean_record raw = Ok r →
  s ∈ services r →
  s ≠ "" ∧ PyStr.strip s = s
  ∧ PyStr.has_char ";" s = false ∧ PyStr.has_char "," s = false.
Proof.
  intros Hr. rewrite (clean_record_services_step _ _ Hr).
  unfold clean_services. destruct (present raw "services") as [v|].
  2: { simpl. intros Hin. by apply elem_of_nil in Hin. }
  assert (services
            (set_services
               (PyStr.strip <$>
                filter (λ s0, PyStr.truthy (PyStr.strip s0) = true)
                  (PyStr.split_on is_service_sep v)) cleaned_default)
          = PyStr.strip <$>
            filter (λ s0, PyStr.truthy (PyStr.strip s0) = true)
              (PyStr.split_on is_service_sep v)) as -> by done.
  intros Hin. apply list_elem_of_fmap in Hin as (piece & -> & Hin).
  apply list_elem_of_filter in Hin as [Htruthy Hin].
  pose proof (split_on_no_sep is_service_sep v) as Hsep.
  rewrite Forall_forall in Hsep. specialize (Hsep piece Hin).
  split; [|split; [apply PyStrMore.strip_idem|]].
  - intros Hempty. by rewrite Hempty in Htruthy.
  - split; apply any_char_strip;
      (eapply any_char_weaken; [|exact Hsep]);
      intros c Hc; unfold is_service_sep; rewrite Hc; by rewrite ?orb_true_r.
Qed.

Lemma clean_record_services_clean_witness :
  ∃ r, clean_record {[ "services" := " Implants ;; whitening, " ]} = Ok r
       ∧ services r = ["Implants"; "whitening"]
       ∧ PyStr.strip "Implants" = "Implants".
Proof.
  assert (∃ r, clean_record {[ "services" := " Implants ;; whitening, " ]} = Ok r
               ∧ services r = ["Implants"; "whitening"]) as (r & Hr & Hs).
  { eexists. split; vm_compute; reflexivity. }
  exists r. split; [exact Hr|]. split; [exact Hs|].
  apply (clean_record_services_clean _ r "Implants" Hr).
  rewrite Hs. apply list_elem_of_here.
Defined.

(** The cleaned address has no blank at either end, and the cleaned
    postcode has no lower-case letter. *)
Theorem clean_record_address_postcode (raw : raw_row) (r : listing) :
  clean_record raw = Ok r →
  address r = PyStr.strip (get_or_empty raw "address")
  ∧ PyStr.strip (address r) = address r
  ∧ postcode r = PyStr.upper (PyStr.strip (get_or_empty raw "postcode"))
  ∧ PyStr.any_char PyStr.is_lower_char (postcode r) = false.
Proof.
  intros Hr. destruct (clean_record_steps _ _ Hr) as (c1 & c2 & Hc1 & Hweb & ->).
  assert (get F_address (copy_other_fields raw (clean_services raw c2))
          = VStr (PyStr.strip (get_or_empty raw "address"))) as [= ->].
  { rewrite copy_other_fields_frame, clean_services_frame by done.
    rewrite (clean_website_frame raw c1 c2 F_address Hweb) by done.
    rewrite Hc1. rewrite clean_phone_frame, set_postcode_frame by done.
    by destruct (clean_city raw _). }
  assert (get F_postcode (copy_other_fields raw (clean_services raw c2))
          = VStr (PyStr.upper (PyStr.strip (get_or_empty raw "postcode"))))
    as [= ->].
  { rewrite copy_other_fields_frame, clean_services_frame by done.
    rewrite (clean_website_frame raw c1 c2 F_postcode Hweb) by done.
    rewrite Hc1. rewrite clean_phone_frame by done.
    by destruct (set_address _ _). }
  split; [done|]. split; [apply PyStrMore.strip_idem|]. split; [done|].
  apply PyStrMore.upper_no_lower.
Qed.

Lemma clean_record_address_postcode_witness :
  ∃ r, clean_record abc_clinic_row = Ok r ∧ postcode r = "LS1 1AA".
Proof.
  assert (∃ r, clean_record abc_clinic_row = Ok r) as [r Hr].
  { eexists. vm_compute. reflexivity. }
  exists r. split; [exact Hr|].
  destruct (clean_record_address_postcode _ _ Hr) as (_ & _ & Hp & _).
  rewrite Hp. vm_compute. reflexivity.
Defined.

(** ** Normalizer and validator together *)

Lemma clean_record_status_cases raw r :
  clean_record raw = Ok r → status_of r = READY ∨ status_of r = NEEDS_REVIEW.
Proof.
  intros Hr. destruct (clean_record_steps _ _ Hr) as (c1 & c2 & Hc1 & Hweb & ->).
  pose proof (status_before_website raw) as Hready. rewrite <- Hc1 in Hready.
  assert (get F_status (copy_other_fields raw (clean_services raw c2))
          = get F_status c2) as [= ->]
    by (by rewrite copy_other_fields_frame, clean_services_frame).
  revert Hweb. unfold clean_website.
  unfold mret, mbind, result_ret, result_bind.
  destruct (present raw "website"); [|intros [= <-]; by left].
  destruct (UrlParse.netloc _); [|done].
  intros [= <-]. repeat case_match; destruct c1; simpl in *; subst; auto.
Qed.

(** What the validator leaves unblocked has every required field. *)
Lemma check_required_fields_unblocked (c : listing) :
  status_of (check_required_fields c) ≠ BLOCKED_MISSING_DATA →
  check_required_fields c = c
  ∧ name c ≠ "" ∧ category c ≠ "" ∧ city c ≠ ""
  ∧ (address c ≠ "" ∨ postcode c ≠ "")
  ∧ (website c ≠ "" ∨ phone c ≠ "").
Proof.
  destruct c as [na ca ci ad po ph we se ra rc bl lu ic de st sd ta la lo ss no].
  destruct na as [|? ?], ca as [|? ?], ci as [|? ?], ad as [|? ?],
    po as [|? ?], we as [|? ?], ph as [|? ?];
    intros Hs; try (exfalso; apply Hs; reflexivity).
  all: repeat split; try done; auto.
Qed.

Lemma clean_record_category_cases raw r :
  clean_record raw = Ok r → category r = "" ∨ category r ∈ valid_categories.
Proof.
  intros Hr. rewrite (clean_record_category_step _ _ Hr).
  destruct (present raw "category") as [v|] eqn:Hv.
  - right. by eapply clean_category_present.
  - left. rewrite clean_category_absent by done.
    by rewrite category_clean_name.
Qed.

(** A record that leaves the normalizer and the validator without being
    blocked is complete: it has a name, a city, a category among the five
    valid ones, an address or a postcode, and a website or a phone; and its
    status is READY or NEEDS_REVIEW. *)
Theorem clean_and_check_unblocked_is_complete (raw : raw_row) (r : listing) :
  clean_and_check raw = Ok r →
  status_of r ≠ BLOCKED_MISSING_DATA →
  name r ≠ "" ∧ city r ≠ ""
  ∧ category r ∈ valid_categories
  ∧ (address r ≠ "" ∨ postcode r ≠ "")
  ∧ (website r ≠ "" ∨ phone r ≠ "")
  ∧ (status_of r = READY ∨ status_of r = NEEDS_REVIEW).
Proof.
  unfold clean_and_check. unfold mret, mbind, result_ret, result_bind.
  destruct (clean_record raw) as [c|e] eqn:Hc; [|done].
  intros [= <-] Hs.
  destruct (check_required_fields_unblocked c Hs)
    as (-> & Hn & Hca & Hci & Hloc & Hcon).
  repeat split; try done.
  - by destruct (clean_record_category_cases _ _ Hc).
  - by apply (clean_record_status_cases raw).
Qed.

Lemma clean_and_check_unblocked_is_complete_witness :
  ∃ r, clean_and_check abc_clinic_row = Ok r
       ∧ category r ∈ valid_categories ∧ name r ≠ "".
Proof.
  assert (∃ r, clean_and_check abc_clinic_row = Ok r ∧ status_of r = READY)
    as (r & Hr & Hs).
  { eexists. split; vm_compute; reflexivity. }
  exists r. split; [exact Hr|].
  destruct (clean_and_check_unblocked_is_complete _ _ Hr) as (Hn & _ & Hc & _).
  - rewrite Hs. discriminate.
  - split; [exact Hc | exact Hn].
Defined.

(** The normalizer and the validator never mark a record as merged, and a
    record they block lacks a required field. *)
Theorem clean_and_check_status (raw : raw_row) (r : listing) :
  clean_and_check raw = Ok r →
  status_of r ≠ MERGED_DUPLICATE
  ∧ (status_of r = BLOCKED_MISSING_DATA ↔
     name r = "" ∨ category r = "" ∨ city r = ""
     ∨ (address r = "" ∧ postcode r = "")
     ∨ (website r = "" ∧ phone r = "")).
Proof.
  unfold clean_and_check. unfold mret, mbind, result_ret, result_bind.
  destruct (clean_record raw) as [c|e] eqn:Hc; [|done].
  intros [= <-].
  pose proof (clean_record_status_cases _ _ Hc) as Hst.
  destruct (decide (status_of (check_required_fields c) = BLOCKED_MISSING_DATA))
    as [Hb|Hnb].
  - split; [by rewrite Hb|]. split; [|done]. intros _.
    clear Hc. revert Hb Hst.
    destruct c as [na ca ci ad po ph we se ra rc bl lu ic de st sd ta la lo ss no].
    destruct na as [|? ?], ca as [|? ?], ci as [|? ?], ad as [|? ?],
      po as [|? ?], we as [|? ?], ph as [|? ?]; simpl; auto 10.
    all: unfold check_required_fields; simpl; intros -> [?|?]; done.
  - destruct (check_required_fields_unblocked c Hnb)
      as (-> & Hn & Hca & Hci & Hloc & Hcon).
    split; [destruct Hst as [-> | ->]; done|].
    split; [intros Hb; destruct Hst as [H|H]; rewrite H in Hb; discriminate|].
    intros [?|[?|[?|[[??]|[??]]]]]; try done.
    + by destruct Hloc.
    + by destruct Hcon.
Qed.

Lemma clean_and_check_status_witness :
  ∃ r, clean_and_check ∅ = Ok r ∧ status_of r = BLOCKED_MISSING_DATA.
Proof.
  assert (∃ r, clean_and_check ∅ = Ok r ∧ name r = "") as (r & Hr & Hn).
  { eexists. split; vm_compute; reflexivity. }
  exists r. split; [exact Hr|].
  apply (clean_and_check_status _ _ Hr). left. exact Hn.
Defined.

(** ** Deduplicator: every record is accounted for *)

Lemma unmerged_cons merged j l :
  unmerged merged (j :: l)
  = (if decide (j ∈ merged) then 0 else 1) + unmerged merged l.
Proof.
  unfold unmerged. rewrite filter_cons.
  destruct (decide (j ∈ merged)), (decide (j ∉ merged)); done.
Qed.

Lemma unmerged_insert_fresh merged j l :
  j ∉ l → unmerged ({[j]} ∪ merged) l = unmerged merged l.
Proof.
  induction l as [|x l IH]; [done|]. intros Hj.
  apply not_elem_of_cons in Hj as [Hne Hj].
  rewrite !unmerged_cons, (IH Hj).
  destruct (decide (x ∈ merged)), (decide (x ∈ {[j]} ∪ merged)); set_solver.
Qed.

(** The inner loop marks each duplicate it reports, reports only later
    positions that were not marked before, and marks nothing else. *)
Lemma find_duplicates_counts record others merged dups dups' merged' :
  NoDup others.*1 →
  find_duplicates record others merged dups = Ok (dups', merged') →
  length dups' + unmerged merged' others.*1
  = length dups + unmerged merged others.*1
  ∧ merged ⊆ merged'
  ∧ (∀ j, j ∈ merged' → j ∈ merged ∨ j ∈ others.*1)
  ∧ (∀ j, j ∈ dups' → j ∈ dups ∨ j ∈ others.*1).
Proof.
  revert merged dups.
  induction others as [|[j other] others IH]; intros merged dups Hnd.
  - simpl. unfold mret, result_ret. intros [= <- <-]. split; [done|].
    split; [done|]. split; auto.
  - rewrite fmap_cons in Hnd |- *. cbn [find_duplicates fst] in Hnd |- *.
    apply NoDup_cons in Hnd as [Hj Hnd].
    unfold mbind, result_bind.
    case_bool_decide as Hmerged.
    + intros Hrec. destruct (IH _ _ Hnd Hrec) as (Hlen & Hsub & Hin & Hd).
      rewrite !unmerged_cons.
      rewrite (decide_True (P := j ∈ merged)) by done.
      rewrite (decide_True (P := j ∈ merged')) by set_solver.
      split; [exact Hlen|]. split; [done|].
      split; intros x Hx; [destruct (Hin x Hx)|destruct (Hd x Hx)];
        set_solver.
    + destruct (is_duplicate record other) as [[|]|e]; [| |done].
      * intros Hrec. destruct (IH _ _ Hnd Hrec) as (Hlen & Hsub & Hin & Hd).
        rewrite !unmerged_cons.
        rewrite (decide_False (P := j ∈ merged)) by done.
        rewrite (decide_True (P := j ∈ merged')) by set_solver.
        rewrite unmerged_insert_fresh in Hlen by done.
        rewrite length_app in Hlen. change (length [j]) with 1 in Hlen.
        split; [lia|]. split; [set_solver|].
        split; intros x Hx; [destruct (Hin x Hx)|destruct (Hd x Hx)];
          set_solver.
      * intros Hrec. destruct (IH _ _ Hnd Hrec) as (Hlen & Hsub & Hin & Hd).
        rewrite !unmerged_cons.
        rewrite (decide_False (P := j ∈ merged)) by done.
        rewrite (decide_False (P := j ∈ merged')).
        2: { intros Hx. destruct (Hin j Hx); done. }
        split; [lia|]. split; [done|].
        split; intros x Hx; [destruct (Hin x Hx)|destruct (Hd x Hx)];
          set_solver.
Qed.

(** The fold appends one record per duplicate and keeps the length of
    [records]. *)
Lemma fold_duplicates_length duplicates best records out :
  Forall (λ d, d < length records) duplicates →
  length (fold_duplicates duplicates best records out).1.2 = length records
  ∧ length (fold_duplicates duplicates best records out).2
    = length out + length duplicates.
Proof.
  revert best records out.
  induction duplicates as [|d ds IH]; intros best records out Hall.
  - simpl. split; [done|lia].
  - apply Forall_cons in Hall as [Hd Hall].
    destruct (lookup_lt_is_Some_2 records d Hd) as [dup Hdup].
    cbn [fold_duplicates]. rewrite Hdup.
    destruct (fold_duplicate best dup) as [b dp].
    destruct (IH b (<[d:=dp]> records) (out ++ [dp])) as [H1 H2].
    { by rewrite length_insert. }
    rewrite H1, H2, length_insert, length_app. simpl. split; lia.
Qed.

Lemma dedup_loop_length (m : nat) :
  ∀ i records merged out res,
    length records = i + m →
    dedup_loop (seq i m) records merged out = Ok res →
    length res = length out + unmerged merged (seq i m).
Proof.
  induction m as [|m IH]; intros i records merged out res Hlen; simpl.
  - unfold mret, result_ret. intros [= <-]. unfold unmerged. simpl. lia.
  - destruct (lookup_lt_is_Some_2 records i ltac:(lia)) as [record ->].
    rewrite unmerged_cons. unfold mbind, result_bind.
    case_bool_decide as Hi.
    + rewrite decide_True by done. apply IH. lia.
    + rewrite decide_False by done.
      destruct (find_duplicates _ _ _ _) as [[dups merged']|e] eqn:Hfind;
        [|done].
      apply find_duplicates_counts in Hfind as (Hcount & _ & _ & Hdups).
      2: { rewrite enumerate_indices. apply NoDup_seq. }
      rewrite enumerate_indices in Hcount, Hdups.
      replace (length records - S i) with m in Hcount, Hdups by lia.
      assert (Forall (λ d, d < length records) dups) as Hbound.
      { apply Forall_forall. intros d Hd.
        destruct (Hdups d Hd) as [Hnil|Hseq]; [by apply elem_of_nil in Hnil|].
        apply elem_of_seq in Hseq. lia. }
      destruct (fold_duplicates_length dups record records out Hbound)
        as [Hrecords Hout].
      destruct (fold_duplicates dups record records out)
        as [[best records'] out']. simpl in Hrecords, Hout.
      intros Hres. apply IH in Hres; [|lia].
      rewrite length_app in Hres. simpl in *. lia.
Qed.

Lemma unmerged_empty l : unmerged ∅ l = length l.
Proof.
  induction l as [|x l IH]; [done|].
  rewrite unmerged_cons, IH. by rewrite decide_False by apply not_elem_of_empty.
Qed.

Lemma kept_as_merged_base record dups : kept_as record (merged_base record dups).
Proof.
  unfold kept_as, merged_base. split.
  - destruct (list_truthy dups).
    + rewrite notes_add_note. apply prefix_app_r_str, notes_foldl_merge_into.
    + apply notes_foldl_merge_into.
  - right. intros f Hf Ht.
    destruct (list_truthy dups);
      rewrite ?get_add_note by done; by apply foldl_merge_into_keeps.
Qed.

Lemma kept_as_marked best dup : kept_as dup (fold_duplicate best dup).2.
Proof.
  unfold kept_as, fold_duplicate. cbn [snd]. split.
  - rewrite notes_add_note.
    replace (notes (set_status MERGED_DUPLICATE dup)) with (notes dup)
      by (by destruct dup).
    apply prefix_app_self.
  - left. split; [by destruct dup|].
    intros f Hs Hn. rewrite get_add_note by done.
    destruct f; try done; by destruct dup.
Qed.

Lemma marked_duplicates_kept (records : list listing) found best :
  Forall (λ p, records !! p.1 = Some p.2) found →
  Forall2 (λ j r', ∃ r, records !! j = Some r ∧ kept_as r r')
          found.*1 (marked_duplicates best found.*2).
Proof.
  revert best. induction found as [|[j x] found IH]; intros best Hall.
  - constructor.
  - apply Forall_cons in Hall as [Hx Hall].
    rewrite !fmap_cons. cbn [fst snd marked_duplicates].
    constructor; [|by apply IH].
    exists x. split; [done|]. apply kept_as_marked.
Qed.

Lemma dedup_loop_accounts (records : list listing) (m : nat) :
  ∀ i cur merged out order res,
    length records = i + m → length cur = length records →
    (∀ j, j ∉ merged → cur !! j = records !! j) →
    NoDup order →
    (∀ x, x ∈ order ↔ x < length records ∧ (x < i ∨ x ∈ merged)) →
    Forall2 (λ j r', ∃ r, records !! j = Some r ∧ kept_as r r') order out →
    dedup_loop (seq i m) cur merged out = Ok res →
    ∃ order', order' ≡ₚ seq 0 (length records)
              ∧ Forall2 (λ j r', ∃ r, records !! j = Some r ∧ kept_as r r')
                        order' res.
Proof.
  induction m as [|m IH];
    intros i cur merged out order res Hn Hlen Hcur Hnd Hin Hout.
  - simpl. unfold mret, result_ret. intros [= <-].
    exists order. split; [|done].
    apply NoDup_Permutation; [done|apply NoDup_seq|].
    intros x. rewrite Hin, elem_of_seq. lia.
  - cbn [seq].
    destruct (lookup_lt_is_Some_2 cur i ltac:(lia)) as [record Hi].
    destruct (decide (i ∈ merged)) as [Hm|Hm].
    + cbn [dedup_loop]. rewrite Hi, bool_decide_eq_true_2 by done.
      intros Hres. apply (IH (S i) cur merged out order res); try done; [lia|].
      intros x. rewrite Hin. split; [intros [? [?|?]]; split; auto; left; lia|].
      intros [? [?|?]]; split; auto.
      destruct (decide (x = i)) as [->|]; [by right|left; lia].
    + intros Hres. apply dedup_loop_step with (record := record) in Hres;
        [|done|done].
      destruct Hres as (cur' & Hlen' & Hframe & Hres).
      set (found := filter _ _) in *.
      assert (∀ j x, (j, x) ∈ found →
                     S i ≤ j ∧ (j ∉ merged) ∧ records !! j = Some x) as Hfound.
      { intros j x Hjx. apply list_elem_of_filter in Hjx as [[Hj _] Hjx].
        apply enumerate_lookup in Hjx as [? Hjx]. cbn [fst] in Hj.
        split; [done|]. split; [done|]. by rewrite <- Hcur. }
      assert (∀ j, j ∈ found.*1 →
                   S i ≤ j ∧ (j ∉ merged) ∧ j < length records) as Hidx.
      { intros j Hj. apply list_elem_of_fmap in Hj as ([j' x] & -> & Hjx).
        destruct (Hfound _ _ Hjx) as (? & ? & Hx).
        split; [done|]. split; [done|]. by apply lookup_lt_Some in Hx. }
      apply (IH (S i) cur' _ _ (order ++ found.*1 ++ [i])) in Hres;
        [done|lia|congruence| | | |].
      * intros j Hj. apply not_elem_of_union in Hj as [Hj1 Hj2].
        rewrite Hframe; [by apply Hcur|].
        intros Hj. apply Hj1. by apply elem_of_list_to_set.
      * apply NoDup_app. split; [done|]. split.
        -- intros x Hx Hx'. apply Hin in Hx as [_ Hx].
           apply elem_of_app in Hx' as [Hx'|Hx'].
           ++ destruct (Hidx _ Hx') as (? & ? & _). destruct Hx; [lia|done].
           ++ apply list_elem_of_singleton in Hx' as ->. destruct Hx; [lia|done].
        -- apply NoDup_app. split; [|split; [|apply NoDup_singleton]].
           ++ eapply sublist_NoDup;
                [|apply fmap_sublist, sublist_filter].
              rewrite enumerate_indices. apply NoDup_seq.
           ++ intros x Hx Hx'. apply list_elem_of_singleton in Hx' as ->.
              destruct (Hidx _ Hx) as (? & _). lia.
      * intros x. rewrite !elem_of_app, Hin, list_elem_of_singleton.
        rewrite elem_of_union, elem_of_list_to_set. split.
        -- intros [[? [?|?]]|[Hx| ->]].
           ++ split; [done|]. left. lia.
           ++ split; [done|]. by right; right.
           ++ destruct (Hidx _ Hx) as (? & ? & ?). split; [done|]. by right; left.
           ++ split; [lia|]. left. lia.
        -- intros [? [?|[?|?]]].
           ++ destruct (decide (x = i)) as [->|]; [by right; right|].
              left. split; [done|]. left. lia.
           ++ by right; left.
           ++ left. split; [done|]. by right.
      * apply Forall2_app; [done|]. apply Forall2_app.
        -- apply marked_duplicates_kept. apply Forall_forall.
           intros [j x] Hjx. by destruct (Hfound _ _ Hjx) as (_ & _ & ?).
        -- constructor; [|constructor].
           exists record. split; [by rewrite <- Hcur|]. apply kept_as_merged_base.
Qed.


(** [deduplicate_records] loses no record and invents none.  When it
    returns, its output has as many records as its input, and the output
    records are, in some order, made of the input records, each position
    once: the notes are extended, a record emitted as a duplicate has its
    status replaced and its other fields untouched, and a record emitted
    as a base keeps every field that was not empty. *)
Theorem deduplicate_records_keeps_every_record (records res : list listing) :
  deduplicate_records records = Ok res →
  length res = length records
  ∧ ∃ order, order ≡ₚ seq 0 (length records)
             ∧ Forall2 (λ i r', ∃ r, records !! i = Some r ∧ kept_as r r')
                       order res.
Proof.
  unfold deduplicate_records. intros Hres.
  apply (dedup_loop_accounts records _ 0 records ∅ [] []) in Hres; try done.
  - destruct Hres as (order & Hperm & Hall). split; [|by exists order].
    apply Forall2_length in Hall. rewrite <- Hall, Hperm. apply length_seq.
  - constructor.
  - intros x. split; [by intros ?%elem_of_nil|].
    intros [_ [?|?%elem_of_empty]]; [lia|done].
Qed.

Lemma deduplicate_records_keeps_every_record_witness :
  ∃ res order,
    deduplicate_records [oak_dental READY; oak_dental_care] = Ok res
    ∧ length res = 2
    ∧ order ≡ₚ [0; 1]
    ∧ Forall2 (λ i r', ∃ r, [oak_dental READY; oak_dental_care] !! i = Some r
                            ∧ kept_as r r') order res.
Proof.
  assert (∃ res, deduplicate_records [oak_dental READY; oak_dental_care] = Ok res)
    as [res Hres].
  { eexists. vm_compute. reflexivity. }
  destruct (deduplicate_records_keeps_every_record _ _ Hres)
    as (Hlen & order & Hperm & Hall).
  by exists res, order.
Defined.

(** ** Deduplicator: the website criterion *)

Lemma check_bracketed_host_raises_value_error hostname e :
  UrlParse.check_bracketed_host hostname = Raise e → e = ValueError.
Proof.
  unfold UrlParse.check_bracketed_host, Ipaddress.ip_address.
  unfold mbind, result_bind.
  repeat case_match; simplify_eq; by intros [= <-].
Qed.

Lemma check_bracketed_netloc_raises_value_error host e :
  UrlParse.check_bracketed_netloc host = Raise e → e = ValueError.
Proof.
  unfold UrlParse.check_bracketed_netloc.
  repeat case_match; try by intros [= <-].
  all: apply check_bracketed_host_raises_value_error.
Qed.

Lemma netloc_raises_value_error url e :
  UrlParse.netloc url = Raise e → e = ValueError.
Proof.
  unfold UrlParse.netloc. unfold mbind, result_bind.
  repeat case_match; try by intros [= <-].
  intros [= <-]. by eapply check_bracketed_netloc_raises_value_error.
Qed.

(** Unlike the name criterion, the website criterion does not depend on
    which of the two records comes first, neither in its answer nor in the
    exception it raises. *)
Theorem website_domain_match_symmetric (A B : listing) :
  website_domain_match A B = website_domain_match B A.
Proof.
  unfold website_domain_match. rewrite (andb_comm (PyStr.truthy (website B))).
  destruct (PyStr.truthy (website A) && PyStr.truthy (website B)); [|done].
  unfold mbind, result_bind, mret, result_ret.
  destruct (UrlParse.netloc (website A)) as [a|ea] eqn:Ha,
           (UrlParse.netloc (website B)) as [b|eb] eqn:Hb; try done.
  - f_equal. apply bool_decide_ext. split; by intros ->.
  - by rewrite (netloc_raises_value_error _ _ Ha),
      (netloc_raises_value_error _ _ Hb).
Qed.

(** Two records whose websites are non-empty and have no host, such as
    cells that held only a path, are duplicates of each other whatever
    their names are. *)
Theorem is_duplicate_when_hosts_empty (A B : listing) :
  website A ≠ "" → website B ≠ "" →
  UrlParse.netloc (website A) = Ok "" →
  UrlParse.netloc (website B) = Ok "" →
  is_duplicate A B = Ok true.
Proof.
  intros HA HB Ha Hb. unfold is_duplicate, website_domain_match.
  assert (PyStr.truthy (website A) = true) as -> by (by destruct (website A)).
  assert (PyStr.truthy (website B) = true) as -> by (by destruct (website B)).
  unfold mbind, result_bind, mret, result_ret. simpl.
  by rewrite Ha, Hb.
Qed.

(** "/about" and "/contact" are cleaned to "https:///about" and
    "https:///contact". *)
Lemma is_duplicate_when_hosts_empty_witness :
  is_duplicate (path_only "Ash Surgery" "https:///about")
               (path_only "Yew Clinic" "https:///contact") = Ok true.
Proof.
  apply is_duplicate_when_hosts_empty;
    [discriminate | discriminate | reflexivity | reflexivity].
Defined.

(** ** Notes only grow, statuses only move one way *)

(** [enrich_with_geodata] never raises and never touches the status; it
    writes the coordinates and the notes only, and the notes it returns
    start with the notes it was given.  Without a geocoding key it leaves
    the coordinates as they are and says so in the notes. *)
Theorem enrich_with_geodata_safe (E : env) (r : listing) :
  ∃ r', enrich_with_geodata E r = Ok r'
        ∧ status_of r' = status_of r
        ∧ String.prefix (notes r) (notes r') = true
        ∧ (∀ f, f ≠ F_latitude → f ≠ F_longitude → f ≠ F_notes →
                get f r' = get f r)
        ∧ (google_api_key E = None ∨ google_api_key E = Some "" →
           r' = add_note "No Google API key for geocoding. " r).
Proof.
  unfold enrich_with_geodata. unfold mret, result_ret.
  destruct (google_api_key E) as [[|c key]|] eqn:Hkey; simpl.
  1, 3: eexists; split; [reflexivity|]; destruct r; simpl;
    repeat split; try done; [apply prefix_app_self | by intros []].
  assert (∀ x : listing,
            (∃ msg, x = add_note msg r ∨ x = r
                    ∨ (∃ lat, x = add_note msg (set_latitude lat r))
                    ∨ (∃ lat lng, x = set_longitude lng (set_latitude lat r))) →
            status_of x = status_of r
            ∧ String.prefix (notes r) (notes x) = true
            ∧ (∀ f, f ≠ F_latitude → f ≠ F_longitude → f ≠ F_notes →
                    get f x = get f r)) as Hshape.
  { intros x (msg & [-> | [-> | [[lat ->] | (lat & lng & ->)]]]);
      destruct r; simpl; repeat split;
      try apply prefix_app_self; try apply prefix_refl;
      intros []; done. }
  match goal with
  | |- ∃ r', match ?l with [] => _ | _ :: _ => ?body end = _ ∧ _ =>
      destruct l as [|part parts]
  end.
  - exists r. split; [done|].
    destruct (Hshape r) as (H1 & H2 & H3); [exists ""; auto|].
    repeat split; try done. by intros [[=]|[=]].
  - destruct (geocode E _) as [[lat [lng|]|]|e]; eexists; (split; [reflexivity|]).
    + destruct (Hshape (set_longitude (Some lng) (set_latitude (Some lat) r)))
        as (H1 & H2 & H3); [exists ""; eauto 10|].
      repeat split; try done. by intros [[=]|[=]].
    + destruct (Hshape (add_note ("Geocoding error: " +:+ exn_str E KeyError +:+ ". ")
                          (set_latitude (Some lat) r)))
        as (H1 & H2 & H3); [eexists; eauto 10|].
      repeat split; try done. by intros [[=]|[=]].
    + destruct (Hshape (add_note "Geocoding failed. " r))
        as (H1 & H2 & H3); [eexists; eauto 10|].
      repeat split; try done. by intros [[=]|[=]].
    + destruct (Hshape (add_note ("Geocoding error: " +:+ exn_str E e +:+ ". ") r))
        as (H1 & H2 & H3); [eexists; eauto 10|].
      repeat split; try done. by intros [[=]|[=]].
Qed.

(** No stage shortens or rewrites the notes: the validator, the
    reachability check and the fold of a duplicate return notes that start
    with the notes they were given, for the base as for the duplicate, and
    the SEO synthesizer leaves the notes alone. *)
Theorem notes_are_append_only (E : env) (r : listing) :
  String.prefix (notes r) (notes (check_required_fields r)) = true
  ∧ (∀ r', check_website_availability E r = Ok r' →
           String.prefix (notes r) (notes r') = true)
  ∧ notes (generate_seo_content r) = notes r
  ∧ (∀ dup, String.prefix (notes r) (notes (fold_duplicate r dup).1) = true
            ∧ String.prefix (notes dup) (notes (fold_duplicate r dup).2) = true).
Proof.
  split; [|split; [|split]].
  - unfold check_required_fields. destruct (missing_fields r).
    + apply prefix_refl.
    + destruct r; simpl. apply prefix_app_self.
  - intros r'. unfold check_website_availability, try_except.
    unfold mret, mbind, result_ret, result_bind.
    destruct (negb _); [intros [= <-]; apply prefix_refl|].
    destruct (PyStr.contains _ _).
    { intros [= <-]. rewrite notes_add_note. apply prefix_app_self. }
    destruct (urlopen_head E _) as [code|e].
    + destruct (400 <=? code); intros [= <-]; [|apply prefix_refl].
      rewrite notes_downgrade_if_ready, notes_add_note. apply prefix_app_self.
    + intros [= <-].
      rewrite notes_downgrade_if_ready, notes_add_note. apply prefix_app_self.
  - unfold generate_seo_content. destruct (has_identity r); by destruct r.
  - intros dup. unfold fold_duplicate. simpl. split.
    + unfold fill. destruct (notes r) as [|c s] eqn:Hn.
      * apply prefix_empty.
      * apply prefix_refl.
    + destruct dup; simpl. apply prefix_app_self.
Qed.

(** ** SEO synthesizer: what it writes and how much *)

(** [generate_seo_content] writes the four SEO keys and nothing else. *)
Theorem generate_seo_content_frame (r : listing) (f : field) :
  f ≠ F_description → f ≠ F_seoTitle → f ≠ F_seoDescription → f ≠ F_tags →
  get f (generate_seo_content r) = get f r.
Proof.
  intros Hd Ht Hs Hg. unfold generate_seo_content.
  destruct (has_identity r); destruct r, f; done.
Qed.

Lemma generate_seo_content_frame_witness :
  status_of (generate_seo_content (oak_dental NEEDS_REVIEW)) = NEEDS_REVIEW.
Proof.
  assert (get F_status (generate_seo_content (oak_dental NEEDS_REVIEW))
          = get F_status (oak_dental NEEDS_REVIEW)) as H.
  { apply generate_seo_content_frame; discriminate. }
  exact (f_equal (λ v, if v is VStatus s then s else READY) H).
Defined.

Lemma replace_blank_no_blank_gen new s :
  new ≠ " "%char → PyStr.has_char " " (replace_char " " new s) = false.
Proof.
  intros Hnew. unfold replace_char, PyStr.has_char.
  induction s as [|c s IH]; simpl; [done|]. rewrite IH, orb_false_r.
  destruct (decide (c = " "%char)) as [->|Hc].
  - rewrite (bool_decide_eq_true_2 (" "%char = " "%char)) by done.
    by apply bool_decide_eq_false_2.
  - rewrite (bool_decide_eq_false_2 (c = " "%char)) by done.
    by apply bool_decide_eq_false_2.
Qed.

Lemma generate_seo_content_tags (r : listing) :
  tags (generate_seo_content r) = seo_tags r.
Proof.
  unfold generate_seo_content. destruct (has_identity r); by destruct r.
Qed.

(** A record gets at most eight tags: "private", the city, the category
    and five services; and a tag made from a service holds no blank. *)
Theorem generate_seo_content_tags_bounded (r : listing) :
  length (tags (generate_seo_content r)) ≤ 8
  ∧ length (tags (generate_seo_content r)) ≤ 3 + length (services r)
  ∧ ∀ i t, 3 ≤ i → tags (generate_seo_content r) !! i = Some t →
           PyStr.has_char " " t = false.
Proof.
  rewrite generate_seo_content_tags. unfold seo_tags.
  set (head := if PyStr.truthy (category r) then _ else _).
  assert (1 ≤ length head ≤ 3) as Hhead.
  { subst head. destruct (PyStr.truthy (category r)), (PyStr.truthy (city r));
      simpl; lia. }
  rewrite length_app, length_fmap, length_take.
  split; [lia|]. split; [lia|].
  intros i t Hi Ht.
  rewrite lookup_app_r in Ht by lia.
  apply list_lookup_fmap_Some in Ht as (s & -> & _).
  by apply replace_blank_no_blank_gen.
Qed.

Lemma has_identity_true (r : listing) :
  name r ≠ "" → category r ≠ "" → city r ≠ "" → has_identity r = true.
Proof.
  unfold has_identity. by destruct (name r), (category r), (city r).
Qed.

(** For a record with a name, a category and a city: the meta description
    has at most 155 characters; the title is the full "category in city |
    name" when that fits in 60 characters; otherwise it has exactly 60
    characters when category and city leave room for the ellipsis (at most
    57 characters up to and including "| "), and more than 60 when they do
    not. *)
Theorem generate_seo_content_lengths (r : listing) :
  name r ≠ "" → category r ≠ "" → city r ≠ "" →
  let prefix := category r +:+ " in " +:+ city r +:+ " | " in
  let full := String.length prefix + String.length (name r) in
  String.length (seoDescription (generate_seo_content r)) ≤ 155
  ∧ (full ≤ 60 → seoTitle (generate_seo_content r) = prefix +:+ name r)
  ∧ (60 < full → String.length prefix ≤ 57 →
     String.length (seoTitle (generate_seo_content r)) = 60)
  ∧ (60 < full → 57 < String.length prefix →
     60 < String.length (seoTitle (generate_seo_content r))).
Proof.
  intros Hn Hca Hci. cbv zeta.
  assert (seoTitle (generate_seo_content r) = seo_title_text r
          ∧ seoDescription (generate_seo_content r) = seo_meta_text r)
    as [-> ->].
  { unfold generate_seo_content.
    rewrite (has_identity_true r Hn Hca Hci). by destruct r. }
  split; [apply seo_meta_text_length|].
  unfold seo_title_text.
  generalize (category r +:+ " in " +:+ city r +:+ " | "). intros prefix.
  rewrite PyStrFacts.length_app.
  split; [|split].
  - intros Hfit. by rewrite (proj2 (Nat.ltb_ge _ _) Hfit).
  - intros Hlong Hroom. rewrite (proj2 (Nat.ltb_lt _ _) Hlong).
    rewrite (proj2 (Z.ltb_lt _ _)) by lia.
    rewrite !PyStrFacts.length_app. unfold PyStr.slice_to.
    rewrite (proj2 (Z.ltb_ge _ _)) by lia.
    rewrite PyStrFacts.length_take.
    change (String.length "...") with 3. lia.
  - intros Hlong Hnoroom. rewrite (proj2 (Nat.ltb_lt _ _) Hlong).
    rewrite (proj2 (Z.ltb_lt _ _)) by lia.
    rewrite !PyStrFacts.length_app.
    change (String.length "...") with 3. lia.
Qed.

(** A long practice name in Leeds is cut to a title of 60 characters. *)
Lemma generate_seo_content_lengths_witness :
  String.length
    (seoTitle (generate_seo_content
                 (studio "The Very Long Named Physiotherapy And Sports Injury Studio"
                         "LS1 1AA"))) = 60.
Proof.
  refine (proj1 (proj2 (proj2
            (generate_seo_content_lengths
               (studio "The Very Long Named Physiotherapy And Sports Injury Studio"
                       "LS1 1AA") _ _ _))) _ _).
  - discriminate.
  - discriminate.
  - discriminate.
  - vm_compute. lia.
  - vm_compute. lia.
Defined.

(** ** The pipeline as a whole *)

Lemma result_bind_ok {A B} (a : A) (k : A → result B) : (Ok a ≫= k) = k a.
Proof. reflexivity. Qed.

Lemma result_bind_raise {A B} (e : exn) (k : A → result B) :
  (Raise e ≫= k) = Raise e.
Proof. reflexivity. Qed.

Lemma mapM_result_length {A B} (f : A → result B) l k :
  mapM f l = Ok k → length k = length l.
Proof.
  revert k. induction l as [|x l IH]; intros k; simpl.
  - by intros [= <-].
  - unfold mbind, result_bind, mret, result_ret.
    destruct (f x); [|done]. destruct (mapM f l); [|done].
    intros [= <-]. simpl. by rewrite (IH _ eq_refl).
Qed.

Lemma mapM_result_cons {A B} (f : A → result B) x l :
  mapM f (x :: l)
  = match f x with
    | Ok y => match mapM f l with Ok k => Ok (y :: k) | Raise e => Raise e end
    | Raise e => Raise e
    end.
Proof. reflexivity. Qed.

Lemma mapM_result_ok {A B} (f : A → result B) l :
  (∀ x, x ∈ l → ∃ y, f x = Ok y) → ∃ k, mapM f l = Ok k.
Proof.
  induction l as [|x l IH]; intros Hall; [by eexists|].
  rewrite mapM_result_cons.
  destruct (Hall x) as [y ->]; [apply list_elem_of_here|].
  destruct IH as [k ->]; [|by eexists].
  intros z Hz. apply Hall. by apply list_elem_of_further.
Qed.

Lemma mapM_result_forall {A B} (f : A → result B) (P : B → Prop) l k :
  (∀ x y, f x = Ok y → P y) → mapM f l = Ok k → Forall P k.
Proof.
  intros HP. revert k. induction l as [|x l IH]; intros k; simpl.
  - by intros [= <-].
  - unfold mbind, result_bind, mret, result_ret.
    destruct (f x) as [y|] eqn:Hy; [|done].
    destruct (mapM f l) as [ys|]; [|done].
    intros [= <-]. apply Forall_cons_2; [by eapply HP|by apply IH].
Qed.

Lemma mapM_result_raise {A B} (f : A → result B) l e :
  mapM f l = Raise e → ∃ x, x ∈ l ∧ f x = Raise e.
Proof.
  induction l as [|x l IH]; simpl; [done|].
  unfold mbind, result_bind, mret, result_ret.
  destruct (f x) as [y|e'] eqn:Hy.
  - destruct (mapM f l) as [ys|e'']; [done|].
    intros [= <-]. destruct IH as (z & Hz & Hfz); [done|].
    exists z. split; [by apply list_elem_of_further|done].
  - intros [= <-]. exists x. split; [apply list_elem_of_here|done].
Qed.

Lemma clean_record_raises_value_error raw e :
  clean_record raw = Raise e → e = ValueError.
Proof.
  unfold clean_record. unfold mbind, result_bind, mret, result_ret.
  destruct (clean_website raw _) as [c|e'] eqn:Hweb; [done|].
  intros [= <-]. revert Hweb. unfold clean_website.
  unfold mbind, result_bind, mret, result_ret.
  destruct (present raw "website"); [|done].
  destruct (UrlParse.netloc _) eqn:Hn; [done|].
  intros [= <-]. by eapply netloc_raises_value_error.
Qed.

Lemma clean_record_website_parses raw r :
  clean_record raw = Ok r → website_parses r.
Proof.
  intros Hr. destruct (clean_record_steps _ _ Hr) as (c1 & c2 & Hc1 & Hweb & ->).
  unfold website_parses.
  assert (get F_website (copy_other_fields raw (clean_services raw c2))
          = get F_website c2) as [= ->]
    by (by rewrite copy_other_fields_frame, clean_services_frame).
  assert (website c1 = "") as Hw1.
  { assert (get F_website c1 = VStr "") as [= ->]; [|done].
    rewrite Hc1.
    rewrite clean_phone_frame, set_postcode_frame, set_address_frame,
      clean_city_frame, clean_category_frame, clean_name_frame by done.
    done. }
  revert Hweb. unfold clean_website.
  unfold mbind, result_bind, mret, result_ret.
  destruct (present raw "website").
  - destruct (UrlParse.netloc _) as [host|] eqn:Hhost; [|done].
    intros [= <-].
    match goal with
    | |- raises (UrlParse.netloc (website (set_website ?w ?c))) = false =>
        assert (website (set_website w c) = w) as -> by (by destruct c)
    end.
    by rewrite Hhost.
  - intros [= <-]. by rewrite Hw1.
Qed.

Lemma check_required_fields_website (c : listing) :
  website (check_required_fields c) = website c.
Proof.
  unfold check_required_fields. destruct (missing_fields c); by destruct c.
Qed.

Lemma clean_and_check_website_parses raw r :
  clean_and_check raw = Ok r → website_parses r.
Proof.
  unfold clean_and_check. unfold mbind, result_bind, mret, result_ret.
  destruct (clean_record raw) as [c|] eqn:Hc; [|done].
  intros [= <-]. unfold website_parses.
  rewrite check_required_fields_website. by eapply clean_record_website_parses.
Qed.

Lemma is_duplicate_parses (A B : listing) :
  website_parses A → website_parses B → ∃ b, is_duplicate A B = Ok b.
Proof.
  unfold website_parses, is_duplicate, website_domain_match.
  unfold mbind, result_bind, mret, result_ret.
  intros HA HB. destruct (_ && _).
  - destruct (UrlParse.netloc (website A)); [|done].
    destruct (UrlParse.netloc (website B)); [|done].
    case_bool_decide; by eexists.
  - by eexists.
Qed.

Lemma find_duplicates_parses record others merged dups :
  website_parses record → Forall website_parses others.*2 →
  ∃ found, find_duplicates record others merged dups = Ok found.
Proof.
  intros Hrec. revert merged dups.
  induction others as [|[j other] others IH]; intros merged dups Hall.
  - by eexists.
  - rewrite fmap_cons in Hall. apply Forall_cons in Hall as [Hother Hall].
    cbn [find_duplicates]. case_bool_decide; [by apply IH|].
    destruct (is_duplicate_parses record other Hrec Hother) as [b ->].
    unfold mbind, result_bind. destruct b; by apply IH.
Qed.

Lemma fold_duplicates_parses duplicates best records out :
  Forall website_parses records →
  Forall website_parses (fold_duplicates duplicates best records out).1.2.
Proof.
  revert best records out.
  induction duplicates as [|d ds IH]; intros best records out Hall; [done|].
  cbn [fold_duplicates]. destruct (records !! d) as [dup|] eqn:Hd; [|done].
  unfold fold_duplicate. cbv zeta. apply IH.
  apply Forall_insert; [done|].
  pose proof (Forall_lookup_1 _ _ _ _ Hall Hd) as Hdup.
  unfold website_parses in *. by destruct dup.
Qed.

Lemma dedup_loop_parses indices records merged out :
  Forall website_parses records →
  ∃ res, dedup_loop indices records merged out = Ok res.
Proof.
  revert records merged out.
  induction indices as [|i indices IH]; intros records merged out Hall.
  - by eexists.
  - cbn [dedup_loop]. destruct (records !! i) as [record|] eqn:Hi; [|by eexists].
    case_bool_decide; [by apply IH|].
    destruct (find_duplicates_parses record (drop (S i) (imap pair records))
                merged []) as [[dups merged'] ->].
    { by eapply Forall_lookup_1. }
    { rewrite fmap_drop, fmap_imap.
      rewrite (imap_ext _ (const id)) by done.
      rewrite imap_const, list_fmap_id. by apply Forall_drop. }
    unfold mbind, result_bind.
    pose proof (fold_duplicates_parses dups record records out Hall) as Hall'.
    destruct (fold_duplicates dups record records out) as [[best records'] out'].
    by apply IH.
Qed.

Lemma check_website_availability_returns E r :
  ∃ r', check_website_availability E r = Ok r'.
Proof.
  unfold check_website_availability, try_except.
  unfold mret, mbind, result_ret, result_bind.
  repeat case_match; by eexists.
Qed.

Lemma enrich_with_geodata_returns E r :
  ∃ r', enrich_with_geodata E r = Ok r'.
Proof.
  unfold enrich_with_geodata. unfold mret, result_ret.
  repeat case_match; by eexists.
Qed.

Lemma enrich_returns E r : ∃ r', enrich E r = Ok r'.
Proof.
  unfold enrich. case_bool_decide; [|by eexists].
  destruct (enrich_with_geodata_returns E r) as [r1 ->].
  unfold mbind, result_bind. apply check_website_availability_returns.
Qed.

Lemma load_csv_returns E p : ∃ rows, load_csv E p = Ok rows.
Proof. unfold load_csv. destruct (open_csv E p); by eexists. Qed.

(** [process_records] fails in one way only: it raises exactly when the
    website of some loaded row makes [urlparse] raise, and what it raises
    then is that [ValueError].  Neither the loader, nor the deduplicator on
    cleaned records, nor the enricher raises. *)
Theorem process_records_raises_only_on_bad_website
    (E : env) (input_file : string) (e : exn) :
  process_records E input_file = Raise e ↔
  e = ValueError
  ∧ ∃ rows raw, load_csv E input_file = Ok rows ∧ raw ∈ rows
                ∧ clean_record raw = Raise ValueError.
Proof.
  unfold process_records.
  destruct (load_csv_returns E input_file) as [rows Hrows]. rewrite Hrows.
  unfold mbind at 1. unfold result_bind at 1.
  destruct rows as [|row0 rows'].
  { split; [done|]. intros (_ & rows & raw & [= <-] & Hin & _).
    by apply elem_of_nil in Hin. }
  set (rows := row0 :: rows') in *.
  destruct (mapM clean_and_check rows) as [cleaned|e'] eqn:Hclean.
  - split.
    + destruct (dedup_loop_parses (seq 0 (length cleaned)) cleaned ∅ [])
        as [deduplicated Hd].
      { eapply mapM_result_forall; [|exact Hclean].
        intros x y. apply clean_and_check_website_parses. }
      destruct (mapM_result_ok (enrich E) deduplicated) as [enriched Hen].
      { intros x _. apply enrich_returns. }
      rewrite result_bind_ok. unfold deduplicate_records.
      rewrite Hd, result_bind_ok, Hen, result_bind_ok. done.
    + intros (_ & rows2 & raw & [= <-] & Hin & Hraise). exfalso.
      assert (∀ l k, mapM clean_and_check l = Ok k → raw ∈ l → False) as Hno.
      { clear -Hraise. induction l as [|x l IH]; intros k; simpl.
        - intros _ Hin. by apply elem_of_nil in Hin.
        - unfold mbind, result_bind, mret, result_ret.
          destruct (clean_and_check x) as [y|] eqn:Hx; [|done].
          destruct (mapM clean_and_check l) as [ys|]; [|done].
          intros _ Hin. apply elem_of_cons in Hin as [-> | Hin]; [|by eapply IH].
          unfold clean_and_check in Hx. by rewrite Hraise in Hx. }
      by eapply Hno.
  - unfold mbind, result_bind.
    apply mapM_result_raise in Hclean as (raw & Hin & Hraw).
    assert (e' = ValueError ∧ clean_record raw = Raise ValueError) as [-> Hcr].
    { unfold clean_and_check in Hraw.
      unfold mbind, result_bind, mret, result_ret in Hraw.
      destruct (clean_record raw) as [c|e''] eqn:Hc; [done|].
      injection Hraw as ->.
      by rewrite (clean_record_raises_value_error _ _ Hc) in *. }
    split.
    + intros [= <-]. split; [done|]. by exists rows, raw.
    + by intros [-> _].
Qed.

(** The second row of the file has the website "http://[elm].co.uk". *)
Lemma process_records_raises_only_on_bad_website_witness :
  process_records bracket_file_env "input/clinics_sample.csv" = Raise ValueError.
Proof.
  apply process_records_raises_only_on_bad_website. split; [reflexivity|].
  exists [ {[ "name" := "Oak Dental"; "website" := "oakdental.co.uk" ]};
           {[ "name" := "Elm Physio"; "website" := "http://[elm].co.uk" ]} ],
         {[ "name" := "Elm Physio"; "website" := "http://[elm].co.uk" ]}.
  split; [vm_compute; reflexivity|].
  split; [apply list_elem_of_further, list_elem_of_here|].
  vm_compute. reflexivity.
Defined.

(** When [process_records] returns records, there is one record per loaded
    row: both counters of the result equal the number of rows and the
    length of the record list, and at least one row was loaded. *)
Theorem process_records_counts (E : env) (input_file : string)
    (records : list listing) (total_processed total_output : nat) :
  process_records E input_file
  = Ok (Processed records total_processed total_output) →
  ∃ rows, load_csv E input_file = Ok rows
          ∧ rows ≠ []
          ∧ total_processed = length rows
          ∧ total_output = length rows
          ∧ length records = length rows.
Proof.
  unfold process_records.
  destruct (load_csv_returns E input_file) as [rows Hrows]. rewrite Hrows.
  rewrite result_bind_ok.
  destruct rows as [|row0 rows']; [done|].
  set (rows := row0 :: rows') in *.
  destruct (mapM clean_and_check rows) as [cleaned|] eqn:Hclean; [|done].
  rewrite result_bind_ok.
  destruct (deduplicate_records cleaned) as [deduplicated|] eqn:Hdedup; [|done].
  rewrite result_bind_ok.
  destruct (mapM (enrich E) deduplicated) as [enriched|] eqn:Hen; [|done].
  rewrite result_bind_ok. unfold mret, result_ret. intros [= <- <- <-].
  apply mapM_result_length in Hclean, Hen.
  unfold deduplicate_records in Hdedup.
  apply dedup_loop_length in Hdedup; [|done].
  rewrite unmerged_empty, length_seq in Hdedup. simpl in Hdedup.
  exists rows. rewrite length_fmap.
  repeat split; try done; lia.
Qed.

(** The run on the one-row file returns one record and counts one row. *)
Lemma process_records_counts_witness :
  ∃ records, process_records one_row_env "input/clinics_sample.csv"
             = Ok (Processed records 1 1)
             ∧ length records = 1.
Proof.
  assert (∃ records, process_records one_row_env "input/clinics_sample.csv"
                     = Ok (Processed records 1 1)) as [records Hrun].
  { eexists. vm_compute. reflexivity. }
  exists records. split; [exact Hrun|].
  destruct (process_records_counts _ _ _ _ _ Hrun) as (rows & Hrows & _ & H1 & _ & Hlen).
  rewrite Hlen, <- H1. reflexivity.
Defined.
